(** * The workbench adapters of bolt.new-any-llm: useGit, EditorStore, Workbench

    A shallow embedding of [app/lib/git/hooks/useGit.ts] (the git hook, the
    filesystem adapter [getFs] and [pathUtils]), of [EditorStore.updateFile]
    and of the GitHub push handler of the Workbench component, followed by
    the properties of these adapters.

    Conventions.
    - A JavaScript string is the [string] of its UTF-8 bytes. The code cuts
      and compares strings at ASCII characters and at whole substrings, which
      reads the same on the bytes; [trim] alone looks at code points, and is
      given by the UTF-8 form of each white space character.
    - A JavaScript object used as a dictionary is a [gmap string _] from
      its own property names to their values. Where the code reads or assigns
      [object[key]] on a plain object, what [Object.prototype] adds to the own
      properties is written out: the inherited names on a read, the
      [__proto__] accessor on an assignment.
    - Everything outside the repository (container runtime, git library,
      credential storage, browser dialogs, clock) is a record of operations
      over an abstract state of the outside world.
    - An asynchronous function is run to completion: it maps the state before
      the call to its outcome, the state after it and the list of
      interactions with the outside world it performed, in order. *)

From Stdlib Require Import ZArith Ascii String List Bool Lia.
From stdpp Require Import base option list gmap strings.

(** ** JavaScript strings *)

Module Js.

Definition isEmpty (s : string) : bool :=
  match s with EmptyString => true | String _ _ => false end.

(** [!s] for a string is [isEmpty s]; truthiness is its negation. *)
Definition truthy (s : string) : bool := negb (isEmpty s).

Fixpoint startsWith (s pre : string) {struct pre} : bool :=
  match pre, s with
  | EmptyString, _ => true
  | String a pre', String b s' => Ascii.eqb a b && startsWith s' pre'
  | String _ _, EmptyString => false
  end.

Fixpoint rev_onto (s acc : string) : string :=
  match s with
  | EmptyString => acc
  | String c s' => rev_onto s' (String c acc)
  end.

Definition reverse (s : string) : string := rev_onto s EmptyString.

Definition endsWith (s suf : string) : bool :=
  startsWith (reverse s) (reverse suf).

(** [s.includes(sub)] *)
Fixpoint includes (s sub : string) : bool :=
  startsWith s sub ||
  match s with
  | EmptyString => false
  | String _ s' => includes s' sub
  end.

(** [s.split('/')] for a one-character separator: never the empty list. *)
Fixpoint split (sep : ascii) (s : string) : list string :=
  match s with
  | EmptyString => [EmptyString]
  | String c s' =>
      if Ascii.eqb c sep then EmptyString :: split sep s'
      else match split sep s' with
           | h :: t => String c h :: t
           | [] => [String c EmptyString]
           end
  end.

(** [parts.join('/')] *)
Fixpoint join (sep : string) (parts : list string) : string :=
  match parts with
  | [] => EmptyString
  | [p] => p
  | p :: rest => p +:+ sep +:+ join sep rest
  end.

(** [s.replace(/c+$/, '')]: drop the trailing run of the character [c]. *)
Fixpoint stripTrailing (c : ascii) (s : string) : string :=
  match s with
  | EmptyString => EmptyString
  | String a s' =>
      let r := stripTrailing c s' in
      if Ascii.eqb a c && isEmpty r then EmptyString else String a r
  end.

(** [s.slice(0, -n)] for [n > 0]. *)
Definition dropLast (n : nat) (s : string) : string :=
  String.substring 0 (String.length s - n) s.

(** The UTF-8 bytes of a code point of the Basic Multilingual Plane. *)
Definition utf8 (codePoint : N) : string :=
  let byte (k : N) := String (ascii_of_N k) EmptyString in
  if (codePoint <? 0x80)%N then byte codePoint
  else if (codePoint <? 0x800)%N
  then byte (0xC0 + codePoint / 0x40)%N +:+ byte (0x80 + codePoint mod 0x40)%N
  else byte (0xE0 + codePoint / 0x1000)%N
       +:+ byte (0x80 + (codePoint / 0x40) mod 0x40)%N
       +:+ byte (0x80 + codePoint mod 0x40)%N.

(** The code points [String.prototype.trim] removes: WhiteSpace (TAB, VT,
    FF, ZWNBSP and the space separators of Unicode) and LineTerminator (LF,
    CR, LS, PS) of ECMAScript. *)
Definition whiteSpace : list N :=
  [0x9; 0xB; 0xC; 0xFEFF;
   0x20; 0xA0; 0x1680;
   0x2000; 0x2001; 0x2002; 0x2003; 0x2004; 0x2005; 0x2006; 0x2007; 0x2008;
   0x2009; 0x200A; 0x202F; 0x205F; 0x3000;
   0xA; 0xD; 0x2028; 0x2029]%N.

(** [s] without its prefix [pre], when it starts with it. *)
Fixpoint dropPrefix (pre s : string) {struct pre} : option string :=
  match pre, s with
  | EmptyString, _ => Some s
  | String a pre', String b s' => if Ascii.eqb a b then dropPrefix pre' s' else None
  | String _ _, EmptyString => None
  end.

(** [s] without the first of the strings [seps] it starts with. *)
Fixpoint dropAny (seps : list string) (s : string) : option string :=
  match seps with
  | [] => None
  | sep :: seps' =>
      match dropPrefix sep s with
      | Some rest => Some rest
      | None => dropAny seps' s
      end
  end.

(** Drop leading occurrences of the strings [seps] as long as there is
    one; [fuel] bounds their number. *)
Fixpoint stripStart (seps : list string) (fuel : nat) (s : string) : string :=
  match fuel with
  | O => s
  | S fuel' =>
      match dropAny seps s with
      | Some rest => stripStart seps fuel' rest
      | None => s
      end
  end.

Definition trimStart (s : string) : string :=
  stripStart (List.map utf8 whiteSpace) (String.length s) s.

Definition trimEnd (s : string) : string :=
  reverse (stripStart (List.map (fun c => reverse (utf8 c)) whiteSpace)
             (String.length s) (reverse s)).

(** [s.trim()] *)
Definition trim (s : string) : string := trimEnd (trimStart s).

(** [arr.slice(0, -1)] *)
Definition init {A} (l : list A) : list A := List.removelast l.

(** [arr.pop()], the removed last element. *)
Definition pop {A} (l : list A) : option A := List.last (List.map Some l) None.

End Js.

(** ** pathUtils *)

Module pathUtils.

Definition slash : ascii := "/"%char.

Definition dirname (path : string) : string :=
  if Js.isEmpty path || negb (Js.includes path "/") then "."
  else
    let path := Js.stripTrailing slash path in
    let d := Js.join "/" (Js.init (Js.split slash path)) in
    if Js.isEmpty d then "/" else d.

Definition basename (path : string) (ext : option string) : string :=
  let path := Js.stripTrailing slash path in
  let base := default "" (Js.pop (Js.split slash path)) in
  match ext with
  | Some e =>
      if Js.truthy e && Js.endsWith base e
      then Js.dropLast (String.length e) base
      else base
  | None => base
  end.

Definition normalizePathParts (p : string) : list string :=
  List.filter Js.truthy (Js.split slash (Js.stripTrailing slash p)).

(** The [for] loop of [relative]: [i] is the loop index, [fuel] the
    number of iterations left ([minLength - i]). *)
Fixpoint commonLoop (fromParts toParts : list string)
    (i fuel commonLength : nat) : nat :=
  match fuel with
  | O => commonLength
  | S fuel' =>
      match fromParts !! i, toParts !! i with
      | Some a, Some b =>
          if String.eqb a b
          then commonLoop fromParts toParts (S i) fuel' (S commonLength)
          else commonLength
      | _, _ => commonLength
      end
  end.

Definition relative (from to : string) : string :=
  if Js.isEmpty from || Js.isEmpty to then "."
  else
    let fromParts := normalizePathParts from in
    let toParts := normalizePathParts to in
    let minLength := Nat.min (length fromParts) (length toParts) in
    let commonLength := commonLoop fromParts toParts 0 minLength 0 in
    let upCount := length fromParts - commonLength in
    let remainingPath := drop commonLength toParts in
    let relativeParts := replicate upCount ".." ++ remainingPath in
    if (length relativeParts =? 0)%nat then "." else Js.join "/" relativeParts.

End pathUtils.

(** ** JavaScript values, exceptions and the effect monad *)

Inductive jsval :=
| VUndefined
| VNull
| VBool (b : bool)
| VNum (n : Z)
| VStr (s : string)
| VBytes (b : list Byte.byte).

Abbreviation jsobject := (gmap string jsval).

(** [o.k] *)
Definition getProp (o : jsobject) (k : string) : jsval :=
  default VUndefined (o !! k).

(** [{ ...o, k: v }] *)
Definition setProp (k : string) (v : jsval) (o : jsobject) : jsobject :=
  <[k := v]> o.

(** [{ ...options }] where [options] may be [undefined]. *)
Definition spread (options : option jsobject) : jsobject := default ∅ options.

(** [object[key] = v] on a plain object, as its own properties see it. The
    name [__proto__] is the accessor of [Object.prototype]: the assignment
    calls its setter, which replaces the prototype of the object (by an
    object [v]) and adds no own property. Every other name becomes, or
    stays, an own property. *)
Definition assign {A} (key : string) (v : A) (object : gmap string A) : gmap string A :=
  if String.eqb key "__proto__" then object else <[key := v]> object.

(** An [Error] object with the fields of [NodeJS.ErrnoException]. *)
Record jsError := mkError {
  message : string;
  code : option string;
  errno : option Z;
  syscall : option string;
  path : option string }.

Definition newError (msg : string) : jsError := mkError msg None None None None.

(** What a [throw] carries: any value, or an instance of [Error]. *)
Inductive thrown :=
| ThrowValue (v : jsval)
| ThrowError (e : jsError).

Inductive outcome (A : Type) :=
| Ok (a : A)
| Throw (t : thrown).
Arguments Ok {A} a.
Arguments Throw {A} t.

(** [error?.message], as a value *)
Definition messageOf (t : thrown) : jsval :=
  match t with
  | ThrowError e => VStr (message e)
  | ThrowValue _ => VUndefined
  end.

(** [error instanceof Error ? error.message : fallback] *)
Definition messageOr (t : thrown) (fallback : string) : string :=
  match t with
  | ThrowError e => message e
  | ThrowValue _ => fallback
  end.

Module Eff.
Section Monad.
Context {S E : Type}.

(** A computation over a state [S] that may throw and that records the
    interactions of type [E] it performs. *)
Definition M (A : Type) : Type := S -> outcome A * S * list E.

Definition ret {A} (a : A) : M A := fun s => (Ok a, s, []).

Definition throw {A} (t : thrown) : M A := fun s => (Throw t, s, []).

Definition bind {A B} (m : M A) (f : A -> M B) : M B := fun s =>
  match m s with
  | (Ok a, s1, e1) => let '(r, s2, e2) := f a s1 in (r, s2, e1 ++ e2)
  | (Throw t, s1, e1) => (Throw t, s1, e1)
  end.

(** [try { m } catch (error) { h error }] *)
Definition tryCatch {A} (m : M A) (h : thrown -> M A) : M A := fun s =>
  match m s with
  | (Ok a, s1, e1) => (Ok a, s1, e1)
  | (Throw t, s1, e1) => let '(r, s2, e2) := h t s1 in (r, s2, e1 ++ e2)
  end.

(** [try { m } finally { f }] with a block [f] that does not throw. *)
Definition tryFinally {A} (m : M A) (f : M unit) : M A := fun s =>
  match m s with
  | (r, s1, e1) => let '(_, s2, e2) := f s1 in (r, s2, e1 ++ e2)
  end.

Definition emit (e : E) : M unit := fun s => (Ok tt, s, [e]).

Definition result {A} (r : outcome A * S * list E) : outcome A := r.1.1.
Definition final {A} (r : outcome A * S * list E) : S := r.1.2.
Definition events {A} (r : outcome A * S * list E) : list E := r.2.
End Monad.
Arguments M : clear implicits.
End Eff.
Import Eff.

Declare Scope eff_scope.
Delimit Scope eff_scope with eff.
Notation "'let*' x ':=' c 'in' k" := (bind c (fun x => k))
  (at level 10, x name, c at level 100, k at level 200) : eff_scope.

(** ** useGit.ts: the data of the hook and of its collaborators *)

Module useGit.

(** An entry of the [fileData] record: [{ data, encoding }]. *)
Record fileEntry := mkEntry { data : jsval; encoding : jsval }.

(** A [Dirent] of the container: [name], [isFile()], [isDirectory()]. *)
Record Dirent := mkDirent {
  name : string;
  dirent_isFile : bool;
  dirent_isDirectory : bool }.

(** What the container's [readdir] resolves to: names, or [Dirent]s when
    asked [withFileTypes]. *)
Inductive readdirResult :=
  | Names (l : list string)
  | Dirents (l : list Dirent).

(** The object [stat] returns. *)
Record Stats := mkStats {
  isFile : bool;
  isDirectory : bool;
  isSymbolicLink : bool;
  size : Z;
  mode : Z;
  mtimeMs : Z;
  uid : Z;
  gid : Z }.

(** [GitAuth] of isomorphic-git. *)
Record GitAuth := mkAuth {
  username : option string;
  password : option string;
  cancel : bool }.

(** The data arguments of [git.clone]; the [fs] client and the callbacks
    are the ones the clone is run against. *)
Record cloneArgs := mkCloneArgs {
  dir : string;
  url : string;
  depth : Z;
  singleBranch : bool;
  corsProxy : string }.

(** A call of a method of the [fs] client ([fs.promises.m(...)]). *)
Inductive fscall :=
  | ReadFile (p : string) (options : option jsobject)
  | WriteFile (p : string) (d : jsval) (options : option jsobject)
  | Mkdir (p : string) (options : option jsobject)
  | Readdir (p : string) (options : option jsobject)
  | Rm (p : string) (options : option jsobject)
  | Rmdir (p : string) (options : option jsobject)
  | Unlink (p : string)
  | Stat (p : string)
  | Lstat (p : string)
  | Readlink (p : string)
  | Symlink (target p : string)
  | Chmod (p : string) (m : Z).

(** What such a call resolves to. *)
Inductive fsvalue :=
  | FsVoid
  | FsValue (v : jsval)
  | FsEntries (r : readdirResult)
  | FsStats (s : Stats).

(** What the git library calls back during a clone. *)
Inductive callback :=
  | CallFs (c : fscall)
  | CallOnAuth (u : string)
  | CallOnAuthFailure (u : string) (auth : GitAuth)
  | CallOnAuthSuccess (u : string) (auth : GitAuth).

Inductive cbvalue :=
  | CbFs (v : fsvalue)
  | CbAuth (a : GitAuth)
  | CbVoid.

(** The behaviour of the git library during one [git.clone]: it resolves,
    rejects, or calls back and goes on with what the callback produced
    (its value, or what it threw). *)
Inductive gitScript :=
  | Resolve
  | Reject (t : thrown)
  | Invoke (c : callback) (k : outcome cbvalue -> gitScript).

(** An argument of [console.log]. *)
Inductive logArg :=
  | LVal (v : jsval)
  | LObj (o : option jsobject).

(** The interactions with the outside world, in the order performed. *)
Inductive event :=
  | ConsoleLog (args : list logArg)
  | ToastError (msg : string)
  | FsReadFile (p : string) (enc : jsval)
  | FsWriteFile (p : string) (d : jsval) (options : jsobject)
  | FsMkdir (p : string) (options : jsobject)
  | FsReaddir (p : string) (options : option jsobject)
  | FsRm (p : string) (options : jsobject)
  | DateNow
  | EnsureEncryption
  | LookupSavedPassword (u : string)
  | SaveGitAuth (u : string) (auth : GitAuth)
  | Confirm (msg : string)
  | Prompt (msg : string)
  | GitClone (args : cloneArgs)
  | Called (c : callback).

(** [webcontainer.fs] of [@webcontainer/api], over the state [X] of the
    outside world. *)
Record FileSystemAPI (X : Type) := {
  c_readFile : string -> jsval -> X -> outcome jsval * X;
  c_writeFile : string -> jsval -> jsobject -> X -> outcome unit * X;
  c_mkdir : string -> jsobject -> X -> outcome jsval * X;
  c_readdir : string -> option jsobject -> X -> outcome readdirResult * X;
  c_rm : string -> jsobject -> X -> outcome unit * X }.
Arguments c_readFile {X}.
Arguments c_writeFile {X}.
Arguments c_mkdir {X}.
Arguments c_readdir {X}.
Arguments c_rm {X}.

Record WebContainer (X : Type) := {
  workdir : string;
  fs : FileSystemAPI X }.
Arguments workdir {X}.
Arguments fs {X}.

(** The collaborators other than the container: [~/lib/auth], the browser
    dialogs, the clock and isomorphic-git. *)
Class Services (X : Type) := {
  ensureEncryption : X -> outcome bool * X;
  lookupSavedPassword : string -> X -> outcome (option GitAuth) * X;
  saveGitAuth : string -> GitAuth -> X -> outcome unit * X;
  confirm : string -> X -> bool * X;
  prompt : string -> X -> option string * X;
  dateNow : X -> Z * X;
  cloneBehaviour : cloneArgs -> X -> gitScript }.

(** The state the hook computes on: the outside world and the object the
    ref [fileData] points to, given by its own properties. Its prototype,
    which an assignment to [__proto__] replaces, is read nowhere: the record
    is only assigned to and listed by [Object.entries]. *)
Record world (X : Type) := mkWorld {
  outside : X;
  fileData : gmap string fileEntry }.
Arguments mkWorld {X}.
Arguments outside {X}.
Arguments fileData {X}.

(** ** getFs: the filesystem client handed to the git library *)

Section Hook.
Context {X : Type} {svc : Services X}.

Local Abbreviation M := (Eff.M (world X) event).
Local Open Scope eff_scope.

(** An awaited operation of the outside world, which may reject. *)
Definition await {A} (e : event) (op : X -> outcome A * X) : M A := fun w =>
  let '(r, x) := op (outside w) in (r, mkWorld x (fileData w), [e]).

(** An operation of the outside world that returns. *)
Definition ask {A} (e : event) (op : X -> A * X) : M A := fun w =>
  let '(a, x) := op (outside w) in (Ok a, mkWorld x (fileData w), [e]).

Definition console_log (args : list logArg) : M unit := emit (ConsoleLog args).

Definition toast_error (msg : string) : M unit := emit (ToastError msg).

(** [options.k]: a [TypeError] when [options] is [undefined]. *)
Definition member (options : option jsobject) (k : string) : M jsval :=
  match options with
  | Some o => ret (getProp o k)
  | None =>
      throw (ThrowError (newError
        ("Cannot read properties of undefined (reading '" +:+ k +:+ "')")))
  end.

(** [record.current[key] = entry]; [record.current] is always an object. *)
Definition record_set (key : string) (entry : fileEntry) : M unit := fun w =>
  (Ok tt, mkWorld (outside w) (assign key entry (fileData w)), []).

(** [record.current = {}] *)
Definition record_reset : M unit := fun w => (Ok tt, mkWorld (outside w) ∅, []).

(** [record.current] *)
Definition record_current : M (gmap string fileEntry) := fun w => (Ok (fileData w), w, []).

Definition readFile (webcontainer : WebContainer X)
    (path : string) (options : option jsobject) : M jsval :=
  let* encoding := member options "encoding" in
  let relativePath := pathUtils.relative (workdir webcontainer) path in
  let* _ := console_log [LVal (VStr "readFile"); LVal (VStr relativePath); LVal encoding] in
  await (FsReadFile relativePath encoding)
        (c_readFile (fs webcontainer) relativePath encoding).

Definition writeFile (webcontainer : WebContainer X)
    (path : string) (data : jsval) (options : option jsobject) : M unit :=
  let* encoding := member options "encoding" in
  let relativePath := pathUtils.relative (workdir webcontainer) path in
  let* _ := console_log [LVal (VStr "writeFile");
              LObj (Some (setProp "relativePath" (VStr relativePath)
                           (setProp "data" data (setProp "encoding" encoding ∅))))] in
  let* _ := record_set relativePath (mkEntry data encoding) in
  let options' := setProp "encoding" encoding (spread options) in
  await (FsWriteFile relativePath data options')
        (c_writeFile (fs webcontainer) relativePath data options').

Definition mkdir (webcontainer : WebContainer X)
    (path : string) (options : option jsobject) : M jsval :=
  let relativePath := pathUtils.relative (workdir webcontainer) path in
  let* _ := console_log [LVal (VStr "mkdir"); LVal (VStr relativePath); LObj options] in
  let options' := setProp "recursive" (VBool true) (spread options) in
  await (FsMkdir relativePath options') (c_mkdir (fs webcontainer) relativePath options').

Definition readdir (webcontainer : WebContainer X)
    (path : string) (options : option jsobject) : M readdirResult :=
  let relativePath := pathUtils.relative (workdir webcontainer) path in
  let* _ := console_log [LVal (VStr "readdir"); LVal (VStr relativePath); LObj options] in
  await (FsReaddir relativePath options) (c_readdir (fs webcontainer) relativePath options).

Definition rm (webcontainer : WebContainer X)
    (path : string) (options : option jsobject) : M unit :=
  let relativePath := pathUtils.relative (workdir webcontainer) path in
  let* _ := console_log [LVal (VStr "rm"); LVal (VStr relativePath); LObj options] in
  await (FsRm relativePath (spread options))
        (c_rm (fs webcontainer) relativePath (spread options)).

Definition rmdir (webcontainer : WebContainer X)
    (path : string) (options : option jsobject) : M unit :=
  let relativePath := pathUtils.relative (workdir webcontainer) path in
  let* _ := console_log [LVal (VStr "rmdir"); LVal (VStr relativePath); LObj options] in
  let options' := spread options ∪ {[ "recursive" := VBool true ]} in
  await (FsRm relativePath options') (c_rm (fs webcontainer) relativePath options').

Definition unlink (webcontainer : WebContainer X) (path : string) : M unit :=
  let relativePath := pathUtils.relative (workdir webcontainer) path in
  let options' : jsobject := {[ "recursive" := VBool false ]} in
  await (FsRm relativePath options') (c_rm (fs webcontainer) relativePath options').

(** The literal [0o666]. *)
Definition octal666 : Z := 6 * 8 * 8 + 6 * 8 + 6.

Definition enoentMessage (path : string) : string :=
  "ENOENT: no such file or directory, stat '" +:+ path +:+ "'".

(** [resp.find((x) => x.name == name)]; a plain name has no [name]. *)
Definition findEntry (resp : readdirResult) (n : string) : option Dirent :=
  match resp with
  | Dirents l => List.find (fun x => String.eqb (name x) n) l
  | Names _ => None
  end.

Definition stat (webcontainer : WebContainer X) (path : string) : M Stats :=
  tryCatch
    (let relativePath := pathUtils.relative (workdir webcontainer) path in
     let options' : option jsobject := Some {[ "withFileTypes" := VBool true ]} in
     let* resp := await (FsReaddir (pathUtils.dirname relativePath) options')
                    (c_readdir (fs webcontainer) (pathUtils.dirname relativePath) options') in
     let name := pathUtils.basename relativePath None in
     match findEntry resp name with
     | None => throw (ThrowError (newError (enoentMessage path)))
     | Some fileInfo =>
         let* now := ask DateNow dateNow in
         ret {| isFile := dirent_isFile fileInfo;
                isDirectory := dirent_isDirectory fileInfo;
                isSymbolicLink := false;
                size := 1;
                mode := octal666;
                mtimeMs := now;
                uid := 1000;
                gid := 1000 |}
     end)
    (fun error =>
       let* _ := console_log [LVal (messageOf error)] in
       throw (ThrowError
         {| message := enoentMessage path;
            code := Some "ENOENT";
            errno := Some (-2)%Z;
            syscall := Some "stat";
            path := Some path |})).

Definition lstat (webcontainer : WebContainer X) (path : string) : M Stats :=
  stat webcontainer path.

Definition readlink (path : string) : M jsval :=
  throw (ThrowError (newError ("EINVAL: invalid argument, readlink '" +:+ path +:+ "'"))).

Definition symlink (target path : string) : M unit :=
  throw (ThrowError (newError
    ("EPERM: operation not permitted, symlink '" +:+ target +:+ "' -> '" +:+ path +:+ "'"))).

Definition chmod (_path : string) (_mode : Z) : M unit := ret tt.

(** The client object, as the function from a method call to its run. *)
Definition PromiseFsClient : Type := fscall -> M fsvalue.

Definition getFs (webcontainer : WebContainer X) : PromiseFsClient := fun call =>
  match call with
  | ReadFile p o => let* v := readFile webcontainer p o in ret (FsValue v)
  | WriteFile p d o => let* _ := writeFile webcontainer p d o in ret FsVoid
  | Mkdir p o => let* v := mkdir webcontainer p o in ret (FsValue v)
  | Readdir p o => let* r := readdir webcontainer p o in ret (FsEntries r)
  | Rm p o => let* _ := rm webcontainer p o in ret FsVoid
  | Rmdir p o => let* _ := rmdir webcontainer p o in ret FsVoid
  | Unlink p => let* _ := unlink webcontainer p in ret FsVoid
  | Stat p => let* s := stat webcontainer p in ret (FsStats s)
  | Lstat p => let* s := lstat webcontainer p in ret (FsStats s)
  | Readlink p => let* v := readlink p in ret (FsValue v)
  | Symlink t p => let* _ := symlink t p in ret FsVoid
  | Chmod p m => let* _ := chmod p m in ret FsVoid
  end.

(** ** The callbacks handed to [git.clone] *)

Definition cancelled : GitAuth := mkAuth None None true.

Definition confirmText : string :=
  "This repo is password protected. Ready to enter a username & password?".

(** [username && password] for the answers of [prompt], [null] when the
    dialog was dismissed. *)
Definition bothGiven (username password : option string) : bool :=
  match username, password with
  | Some u, Some p => Js.truthy u && Js.truthy p
  | _, _ => false
  end.

Definition onAuth (url : string) : M GitAuth :=
  let* encrypted := await EnsureEncryption ensureEncryption in
  if negb encrypted then ret cancelled
  else
    let* auth := await (LookupSavedPassword url) (lookupSavedPassword url) in
    match auth with
    | Some saved => ret saved
    | None =>
        let* ready := ask (Confirm confirmText) (confirm confirmText) in
        if ready then
          let* username := ask (Prompt "Enter username") (prompt "Enter username") in
          let* password := ask (Prompt "Enter password") (prompt "Enter password") in
          if bothGiven username password
          then ret (mkAuth username password false)
          else ret cancelled
        else ret cancelled
    end.

(** [url.split('/')[2]] inside a template literal. *)
Definition hostOf (url : string) : string :=
  default "undefined" (Js.split pathUtils.slash url !! 2).

Definition onAuthFailure (url : string) (_auth : GitAuth) : M unit :=
  toast_error ("Error Authenticating with " +:+ hostOf url).

Definition onAuthSuccess (url : string) (auth : GitAuth) : M unit :=
  await (SaveGitAuth url auth) (saveGitAuth url auth).

(** ** Running the git library against the client and the callbacks *)

Definition runCallback (client : PromiseFsClient) (c : callback) : M cbvalue :=
  match c with
  | CallFs call => let* v := client call in ret (CbFs v)
  | CallOnAuth u => let* a := onAuth u in ret (CbAuth a)
  | CallOnAuthFailure u a => let* _ := onAuthFailure u a in ret CbVoid
  | CallOnAuthSuccess u a => let* _ := onAuthSuccess u a in ret CbVoid
  end.

Fixpoint runScript (client : PromiseFsClient) (s : gitScript) : M unit := fun w =>
  match s with
  | Resolve => (Ok tt, w, [])
  | Reject t => (Throw t, w, [])
  | Invoke c k =>
      let '(r, w1, e1) := runCallback client c w in
      let '(r', w2, e2) := runScript client (k r) w1 in
      (r', w2, Called c :: e1 ++ e2)
  end.

(** [await git.clone({ fs, http, dir, url, depth, ... })] *)
Definition git_clone (client : PromiseFsClient) (args : cloneArgs) : M unit := fun w =>
  let '(r, w', e) := runScript client (cloneBehaviour args (outside w)) w in
  (r, w', GitClone args :: e).

(** ** The hook *)

(** The state variables [ready], [webcontainer] and [fs] as a call of
    [gitClone] sees them. *)
Record hookState := mkHook {
  ready : bool;
  webcontainer : option (WebContainer X);
  fsState : option PromiseFsClient }.

Definition unmounted : hookState := mkHook false None None.

(** The state after the effect of the hook ran for [container]. *)
Definition mounted (container : WebContainer X) : hookState :=
  mkHook true (Some container) (Some (getFs container)).

(** The effect itself also resets the record. *)
Definition mount (container : WebContainer X) (w : world X) : hookState * world X :=
  (mounted container, mkWorld (outside w) ∅).

Record cloneResult := mkResult {
  result_workdir : string;
  result_data : gmap string fileEntry }.

(** The loop copying [Object.entries(fileData.current)] into [data] by
    [data[key] = value]. *)
Definition copyEntries (current : gmap string fileEntry) : gmap string fileEntry :=
  fold_left (fun data kv => assign kv.1 kv.2 data) (map_to_list current) ∅.

Definition sshMessage : string :=
  "SSH protocol is not supported. Please use HTTPS URL instead.".

Definition notInitialized : thrown :=
  ThrowValue (VStr "Webcontainer not initialized").

Definition gitClone (h : hookState) (url : string) : M cloneResult :=
  match webcontainer h, fsState h, ready h with
  | Some webcontainer, Some fs, true =>
      let* _ := record_reset in
      tryCatch
        (if Js.startsWith url "git@"
         then throw (ThrowError (newError sshMessage))
         else
           let* _ := git_clone fs
                        {| dir := workdir webcontainer;
                           url := url;
                           depth := 1;
                           singleBranch := true;
                           corsProxy := "https://cors.isomorphic-git.org" |} in
           let* current := record_current in
           let data := copyEntries current in
           ret (mkResult (workdir webcontainer) data))
        (fun error =>
           let* _ := toast_error (messageOr error "Failed to clone repository") in
           throw error)
  | _, _, _ => throw notInitialized
  end.

End Hook.

End useGit.

(** ** EditorStore *)

Module EditorStore.

Record ScrollPosition := mkScroll { top : Z; left : Z }.

(** An object of the [documents] map. The type [EditorDocument] promises
    [value], [filePath] and [isBinary]; at run time an object has the
    properties it was built with, so each of them may be missing
    ([undefined]). *)
Record EditorDocument := mkObject {
  value : option string;
  filePath : option string;
  scroll : option ScrollPosition;
  isBinary : option bool }.

(** The object [{ value, filePath, scroll, isBinary }], with all that the
    type promises. *)
Definition mkDocument (content path : string) (position : option ScrollPosition)
    (binary : bool) : EditorDocument :=
  {| value := Some content;
     filePath := Some path;
     scroll := position;
     isBinary := Some binary |}.

(** The names every plain object inherits from [Object.prototype]. *)
Definition inheritedNames : list string :=
  ["constructor"; "hasOwnProperty"; "isPrototypeOf"; "propertyIsEnumerable";
   "toLocaleString"; "toString"; "valueOf"; "__proto__";
   "__defineGetter__"; "__defineSetter__"; "__lookupGetter__"; "__lookupSetter__"].

(** What [documents[key]] evaluates to when it is not [undefined]: the own
    property of that name or, for a name without one that is inherited from
    [Object.prototype], the member found there (a function; for [__proto__]
    the prototype itself). *)
Inductive property :=
| Own (document : EditorDocument)
| Inherited (name : string).

(** [documents[key]] *)
Definition getProperty (documents : gmap string EditorDocument) (key : string)
    : option property :=
  match documents !! key with
  | Some document => Some (Own document)
  | None => if bool_decide (key ∈ inheritedNames) then Some (Inherited key) else None
  end.

(** What the code uses of a [documents[key]] that is not [undefined]: its
    properties [value] and [scroll], and its own enumerable properties in
    [{ ...documentState }]. A member of [Object.prototype] has no [value], no
    [scroll] and no enumerable property of its own. *)
Definition fields (found : property) : EditorDocument :=
  match found with
  | Own document => document
  | Inherited _ => mkObject None None None None
  end.

(** [{ ...documentState, value: newContent }] *)
Definition withValue (documentState : EditorDocument) (newContent : string)
    : EditorDocument :=
  {| value := Some newContent;
     filePath := filePath documentState;
     scroll := scroll documentState;
     isBinary := isBinary documentState |}.

Section Store.
(** The version history store and the files store are other modules of
    the repository: their state is abstract, [addVersion] and
    [isExistingFile] are what [updateFile] uses of them. *)
Context {History Files : Type}.
Variable addVersion : string -> string -> string -> History -> History.
Variable isExistingFile : Files -> string -> bool.

(** What [updateFile] reads and writes: the [documents] map store, the
    version history store, the files store, and the [unsavedFiles] and
    [modifiedFiles] sets of the workbench store. *)
Record stores := mkStores {
  documents : gmap string EditorDocument;
  versionHistoryStore : History;
  filesStore : Files;
  unsavedFiles : gset string;
  modifiedFiles : gset string }.

(** [updateFile]. The [documents.setKey(key, document)] of nanostores
    builds the new map as [{ ...documents, [key]: document }]: an own
    property under every name. *)
Definition updateFile (filePath newContent : string) (s : stores) : stores :=
  match getProperty (documents s) filePath with
  | None => s
  | Some found =>
      let documentState := fields found in
      let currentContent := value documentState in
      let contentChanged := negb (bool_decide (currentContent = Some newContent)) in
      if contentChanged then
        let history := addVersion filePath newContent "Modified in editor"
                         (versionHistoryStore s) in
        let existing := isExistingFile (filesStore s) filePath in
        let unsaved :=
          if existing then unsavedFiles s ∪ {[ filePath ]} else unsavedFiles s in
        let modified :=
          if existing then modifiedFiles s ∪ {[ filePath ]} else modifiedFiles s in
        {| documents := <[filePath := withValue documentState newContent]> (documents s);
           versionHistoryStore := history;
           filesStore := filesStore s;
           unsavedFiles := unsaved;
           modifiedFiles := modified |}
      else s
  end.
End Store.

End EditorStore.

(** ** Workbench: the GitHub push handler *)

Module Workbench.

(** The state variables the handler closes over. *)
Record formState := mkForm {
  githubRepoName : string;
  githubUsername : string;
  githubToken : string;
  isPrivateRepo : bool;
  isNewBranch : bool;
  newBranchName : string }.

(** The arguments of [workbenchStore.pushToGitHub]. *)
Record pushArgs := mkPush {
  push_repoName : string;
  push_username : string;
  push_token : string;
  push_isPrivate : bool;
  push_branch : option string;
  push_isNewBranch : bool }.

Inductive event :=
  | ToastError (msg : string)
  | ToastSuccess (repoUrl : string)
  | ConsoleError (error : thrown)
  | SetIsGitHubPushing (b : bool)
  | SetShowGitHubDialog (b : bool)
  | PushToGitHub (args : pushArgs).

(** The character class of [/[~^:?*[\]\\]/]. *)
Definition invalidCharacters : list ascii :=
  ["~"; "^"; ":"; "?"; "*"; "["; "]"; "\"]%char.

(** [invalidCharacters.test(s)]: some character of [s] is in the class. *)
Definition test (class : list ascii) (s : string) : bool :=
  existsb (fun c => existsb (Ascii.eqb c) class) (list_ascii_of_string s).

Definition isValidBranchName (branchName : string) : bool :=
  (0 <? String.length branchName)%nat
  && negb (test invalidCharacters branchName)
  && negb (Js.endsWith branchName ".").

Section Handler.
(** The workbench store is another module of the repository: its
    [pushToGitHub] is an operation on the state [X] of the outside world
    that resolves to the repository url or rejects. *)
Context {X : Type}.
Variable pushToGitHub : pushArgs -> X -> outcome string * X.

Local Abbreviation M := (Eff.M X event).
Local Open Scope eff_scope.

Definition toast_error (msg : string) : M unit := emit (ToastError msg).

Definition await_push (args : pushArgs) : M string := fun x =>
  let '(r, x') := pushToGitHub args x in (r, x', [PushToGitHub args]).

(** The [try]/[catch]/[finally] after the checks. *)
Definition push (f : formState) : M unit :=
  let* _ := emit (SetIsGitHubPushing true) in
  tryFinally
    (tryCatch
       (let* repoUrl :=
          await_push
            {| push_repoName := Js.trim (githubRepoName f);
               push_username := Js.trim (githubUsername f);
               push_token := Js.trim (githubToken f);
               push_isPrivate := isPrivateRepo f;
               push_branch :=
                 if isNewBranch f then Some (Js.trim (newBranchName f)) else None;
               push_isNewBranch := isNewBranch f |} in
        let* _ := emit (ToastSuccess repoUrl) in
        emit (SetShowGitHubDialog false))
       (fun error =>
          let* _ := emit (ConsoleError error) in
          let errorMessage := messageOr error "Failed to push to GitHub" in
          if Js.includes errorMessage "Repository does not exist" then
            toast_error "Cannot create a new branch in a non-existent repository. Please create the repository first."
          else if Js.includes errorMessage "rate limit" then
            toast_error "GitHub API rate limit exceeded. Please try again later."
          else toast_error errorMessage))
    (emit (SetIsGitHubPushing false)).

Definition handleGitHubPush (f : formState) : M unit :=
  if Js.isEmpty (githubRepoName f) || Js.isEmpty (githubUsername f)
     || Js.isEmpty (githubToken f)
  then toast_error "Please fill in all GitHub details"
  else if negb (Js.startsWith (githubToken f) "ghp_")
          && negb (Js.startsWith (githubToken f) "github_pat_")
  then toast_error "Invalid token format. Please use a GitHub Personal Access Token"
  else if isNewBranch f then
    if Js.isEmpty (newBranchName f)
    then toast_error "Please enter a name for the new branch"
    else if negb (isValidBranchName (newBranchName f))
    then toast_error "Invalid branch name. Please ensure it does not contain invalid characters or end with a dot."
    else push f
  else push f.
End Handler.

End Workbench.

(** ** EditorStore: the other methods *)

Module EditorStoreMethods.
Import EditorStore.

(** An entry of the [FileMap] of the files store (declared in [./files]),
    with what [setDocuments] reads of it: a file has a [content] and an
    [isBinary] flag, a folder has neither. The map may hold [undefined]. *)
Inductive Dirent :=
| File (content : string) (isBinary : bool)
| Folder.

Abbreviation FileMap := (gmap string (option Dirent)).

(** [Object.fromEntries(entries)]: a later entry overwrites an earlier one. *)
Definition fromEntries {A} (entries : list (string * A)) : gmap string A :=
  fold_left (fun m kv => <[kv.1 := kv.2]> m) entries ∅.

(** [{ ...documentState, scroll: position }] *)
Definition withScroll (documentState : EditorDocument) (position : ScrollPosition)
    : EditorDocument :=
  {| value := value documentState;
     filePath := filePath documentState;
     scroll := Some position;
     isBinary := isBinary documentState |}.

(** What the callback of [setDocuments] returns for one entry of [files]:
    nothing for [undefined] and for a folder, the pair of the path and the
    document for a file. *)
Definition toDocument (previousDocuments : gmap string EditorDocument)
    (entry : string * option Dirent) : option (string * EditorDocument) :=
  match entry.2 with
  | Some (File content isBinary) =>
      let previousDocument := getProperty previousDocuments entry.1 in
      Some (entry.1,
            mkDocument content entry.1
              (previousDocument ≫= fun found => scroll (fields found)) isBinary)
  | Some Folder | None => None
  end.

(** What the same callback does to [#originalContent] for one entry: the
    content of a file is stored unless the path has one already. *)
Definition remember (originalContent : gmap string string)
    (entry : string * option Dirent) : gmap string string :=
  match entry.2 with
  | Some (File content _) =>
      match originalContent !! entry.1 with
      | Some _ => originalContent
      | None => <[entry.1 := content]> originalContent
      end
  | Some Folder | None => originalContent
  end.

Section Methods.
Context {History Files : Type}.
Variable addVersion : string -> string -> string -> History -> History.
Variable isExistingFile : Files -> string -> bool.

(** The store and what its methods reach: the stores [updateFile] works
    on, the private map [#originalContent] and the [selectedFile] atom. *)
Record editor := mkEditor {
  base : @stores History Files;
  originalContent : gmap string string;
  selectedFile : option string }.

Definition withDocuments (documents' : gmap string EditorDocument)
    (s : @stores History Files) : @stores History Files :=
  {| documents := documents';
     versionHistoryStore := versionHistoryStore s;
     filesStore := filesStore s;
     unsavedFiles := unsavedFiles s;
     modifiedFiles := modifiedFiles s |}.

(** [currentDocument]: nothing when no file, or the empty path, is
    selected; else [documents[selectedFile]]. *)
Definition currentDocument (e : editor) : option property :=
  match selectedFile e with
  | None => None
  | Some selected =>
      if Js.isEmpty selected then None else getProperty (documents (base e)) selected
  end.

(** The callback runs over [Object.entries(files)] in order; its returned
    pairs, the [undefined] ones filtered out, make the new documents. *)
Definition setDocuments (files : FileMap) (e : editor) : editor :=
  let previousDocuments := documents (base e) in
  let entries := map_to_list files in
  {| base := withDocuments (fromEntries (omap (toDocument previousDocuments) entries))
               (base e);
     originalContent := fold_left remember entries (originalContent e);
     selectedFile := selectedFile e |}.

Definition setSelectedFile (filePath : option string) (e : editor) : editor :=
  {| base := base e; originalContent := originalContent e; selectedFile := filePath |}.

Definition updateScrollPosition (filePath : string) (position : ScrollPosition)
    (e : editor) : editor :=
  match getProperty (documents (base e)) filePath with
  | None => e
  | Some found =>
      let documentState := fields found in
      {| base := withDocuments
                   (<[filePath := withScroll documentState position]> (documents (base e)))
                   (base e);
         originalContent := originalContent e;
         selectedFile := selectedFile e |}
  end.

(** [updateFile] as a method of the whole store. *)
Definition updateFile' (filePath newContent : string) (e : editor) : editor :=
  {| base := updateFile addVersion isExistingFile filePath newContent (base e);
     originalContent := originalContent e;
     selectedFile := selectedFile e |}.

Definition resetFile (filePath : string) (e : editor) : editor :=
  match originalContent e !! filePath with
  | Some original =>
      if Js.truthy original then
        let s := updateFile addVersion isExistingFile filePath original (base e) in
        {| base := {| documents := documents s;
                      versionHistoryStore := versionHistoryStore s;
                      filesStore := filesStore s;
                      unsavedFiles := unsavedFiles s ∖ {[ filePath ]};
                      modifiedFiles := modifiedFiles s ∖ {[ filePath ]} |};
           originalContent := originalContent e;
           selectedFile := selectedFile e |}
      else e
  | None => e
  end.

End Methods.

End EditorStoreMethods.

(** ** Workbench: the other handlers *)

Module WorkbenchHandlers.

Inductive event :=
| SetIsSyncing (b : bool)
| ShowDirectoryPicker
| SyncFiles (directoryHandle : string)
| ToastSuccess (msg : string)
| ToastError (msg : string)
| ToastInfo (msg : string)
| ConsoleError (label : string) (error : thrown)
| SetIsGitHubPushing (b : bool)
| SetShowGitHubDialog (b : bool)
| ListBranches (auth owner repo : string)
| SetBranches (branches : list string).

Section Handlers.
(** The directory picker of the browser, [workbenchStore.syncFiles] and
    the GitHub client are operations on the state [X] of the outside world;
    a directory handle is named by a string, and [listBranches] gives the
    names of the branches of [data]. *)
Context {X : Type}.
Variable showDirectoryPicker : X -> outcome string * X.
Variable syncFiles : string -> X -> outcome unit * X.
Variable listBranches : string -> string -> string -> X -> outcome (list string) * X.

Local Abbreviation M := (Eff.M X event).
Local Open Scope eff_scope.

Definition await {A} (e : event) (op : X -> outcome A * X) : M A := fun x =>
  let '(r, x') := op x in (r, x', [e]).

Definition handleSyncFiles : M unit :=
  let* _ := emit (SetIsSyncing true) in
  tryFinally
    (tryCatch
       (let* directoryHandle := await ShowDirectoryPicker showDirectoryPicker in
        let* _ := await (SyncFiles directoryHandle) (syncFiles directoryHandle) in
        emit (ToastSuccess "Files synced successfully"))
       (fun error =>
          let* _ := emit (ConsoleError "Error syncing files:" error) in
          emit (ToastError "Failed to sync files")))
    (emit (SetIsSyncing false)).

Definition handleCancelPush (isGitHubPushing : bool) : M unit :=
  let* _ :=
    if isGitHubPushing then
      let* _ := emit (SetIsGitHubPushing false) in
      emit (ToastInfo "GitHub push operation cancelled")
    else ret tt in
  emit (SetShowGitHubDialog false).

Definition fetchBranches (githubUsername githubToken githubRepoName : string) : M unit :=
  if Js.isEmpty githubUsername || Js.isEmpty githubToken || Js.isEmpty githubRepoName
  then ret tt
  else
    tryCatch
      (let* names := await (ListBranches githubToken githubUsername githubRepoName)
                       (listBranches githubToken githubUsername githubRepoName) in
       emit (SetBranches names))
      (fun error =>
         let* _ := emit (ConsoleError "Error fetching branches:" error) in
         emit (SetBranches [])).

End Handlers.

End WorkbenchHandlers.

(** ** A concrete outside world

    A small container (a flat list of file names and a clock) with a git
    library that writes one file, asks for credentials and stats the file.
    It is the world the closed examples below are run in. *)

Module Concrete.
Import useGit.

Definition X : Type := list string * Z.

Definition api : FileSystemAPI X := {|
  c_readFile := fun p _ x =>
    (if bool_decide (p ∈ x.1) then Ok (VStr p)
     else Throw (ThrowError (newError "no such file")), x);
  c_writeFile := fun p _ _ x => (Ok tt, (p :: x.1, x.2));
  c_mkdir := fun _ _ x => (Ok VUndefined, x);
  c_readdir := fun _ _ x =>
    (Ok (Dirents (List.map (fun n => mkDirent n true false) x.1)), x);
  c_rm := fun _ _ x => (Ok tt, x) |}.

Definition container : WebContainer X :=
  {| workdir := "/home/project"; fs := api |}.

Definition script : gitScript :=
  Invoke (CallFs (WriteFile "/home/project/a.txt" (VStr "hi") (Some ∅))) (fun _ =>
  Invoke (CallOnAuth "https://example.org/r.git") (fun _ =>
  Invoke (CallFs (Stat "/home/project/a.txt")) (fun r =>
    match r with Ok _ => Resolve | Throw t => Reject t end))).

#[export] Instance services : Services X := {|
  ensureEncryption := fun x => (Ok true, x);
  lookupSavedPassword := fun _ x => (Ok None, x);
  saveGitAuth := fun _ _ x => (Ok tt, x);
  confirm := fun _ x => (true, x);
  prompt := fun m x => (Some m, x);
  dateNow := fun x => (x.2, (x.1, x.2 + 1)%Z);
  cloneBehaviour := fun _ _ => script |}.

Definition w0 : world X := mkWorld ([], 5%Z) ∅.

(** A world whose credential store refuses to encrypt, and one that has a
    saved password. *)
Definition refusing : Services X := {|
  ensureEncryption := fun x => (Ok false, x);
  lookupSavedPassword := fun _ x => (Ok None, x);
  saveGitAuth := fun _ _ x => (Ok tt, x);
  confirm := fun _ x => (true, x);
  prompt := fun m x => (Some m, x);
  dateNow := fun x => (x.2, x);
  cloneBehaviour := fun _ _ => Resolve |}.

Definition savedAuth : GitAuth := mkAuth (Some "alice") (Some "secret") false.

Definition remembering : Services X := {|
  ensureEncryption := fun x => (Ok true, x);
  lookupSavedPassword := fun _ x => (Ok (Some savedAuth), x);
  saveGitAuth := fun _ _ x => (Ok tt, x);
  confirm := fun _ x => (true, x);
  prompt := fun m x => (Some m, x);
  dateNow := fun x => (x.2, x);
  cloneBehaviour := fun _ _ => Resolve |}.

(** A user who dismisses the password dialog. *)
Definition dismissing : Services X := {|
  ensureEncryption := fun x => (Ok true, x);
  lookupSavedPassword := fun _ x => (Ok None, x);
  saveGitAuth := fun _ _ x => (Ok tt, x);
  confirm := fun _ x => (true, x);
  prompt := fun m x => (if String.eqb m "Enter password" then None else Some m, x);
  dateNow := fun x => (x.2, x);
  cloneBehaviour := fun _ _ => Resolve |}.

Definition cloneUrl : string := "https://example.org/r.git".

(** A repository with the files [README.md] and [__proto__] at its root:
    the git library writes both through the client. *)
Definition protoScript : gitScript :=
  Invoke (CallFs (WriteFile "/home/project/README.md" (VStr "# r") (Some ∅))) (fun _ =>
  Invoke (CallFs (WriteFile "/home/project/__proto__" (VStr "x") (Some ∅))) (fun _ =>
    Resolve)).

Definition protoRepo : Services X := {|
  ensureEncryption := fun x => (Ok true, x);
  lookupSavedPassword := fun _ x => (Ok None, x);
  saveGitAuth := fun _ _ x => (Ok tt, x);
  confirm := fun _ x => (true, x);
  prompt := fun m x => (Some m, x);
  dateNow := fun x => (x.2, x);
  cloneBehaviour := fun _ _ => protoScript |}.

(** What the clone of [cloneUrl] returns in the world [w0]. *)
Definition cloned : cloneResult :=
  {| result_workdir := "/home/project";
     result_data := {[ "a.txt" := mkEntry (VStr "hi") VUndefined ]} |}.

(** A form that asks for a new branch, one without a token, and a store
    that accepts every push. *)
Definition branchForm : Workbench.formState :=
  Workbench.mkForm "project" "alice" "ghp_0123456789" false true "feature/login".

Definition emptyForm : Workbench.formState :=
  Workbench.mkForm "project" "alice" "" false false "".

Definition acceptingStore (args : Workbench.pushArgs) (x : unit) : outcome string * unit :=
  (Ok ("https://github.com/" +:+ Workbench.push_username args +:+ "/"
       +:+ Workbench.push_repoName args), x).

(** An editor with one document, a version history kept as a list and a
    files store that knows the files of a set. *)
Definition addVersion (filePath content description : string)
    (history : list (string * string * string)) : list (string * string * string) :=
  (filePath, content, description) :: history.

Definition isExistingFile (files : gset string) (filePath : string) : bool :=
  bool_decide (filePath ∈ files).

Definition editor : @EditorStore.stores (list (string * string * string)) (gset string) :=
  EditorStore.mkStores
    {[ "src/a.ts" := EditorStore.mkDocument "let a = 1" "src/a.ts" None false ]}
    [] (∅ : gset string) ∅ ∅.

End Concrete.

(** ** More of the concrete world *)

Module ConcreteMore.
Import useGit Concrete.

(** A world whose container holds the file [a.ts]. *)
Definition w1 : world X := mkWorld (["a.ts"], 5%Z) ∅.

(** A world whose record has an entry left from earlier. *)
Definition stale : world X :=
  mkWorld ([], 5%Z) {[ "old.txt" := mkEntry (VStr "old") VUndefined ]}.

(** A git library that asks for credentials, reports success and saves. *)
Definition authScript : gitScript :=
  Invoke (CallOnAuth cloneUrl) (fun r =>
    match r with
    | Ok (CbAuth auth) => Invoke (CallOnAuthSuccess cloneUrl auth) (fun _ => Resolve)
    | _ => Resolve
    end).

Definition authenticating : Services X := {|
  ensureEncryption := fun x => (Ok true, x);
  lookupSavedPassword := fun _ x => (Ok None, x);
  saveGitAuth := fun _ _ x => (Ok tt, x);
  confirm := fun _ x => (true, x);
  prompt := fun m x => (Some m, x);
  dateNow := fun x => (x.2, x);
  cloneBehaviour := fun _ _ => authScript |}.

(** A git library that fails at once. *)
Definition failing : Services X := {|
  ensureEncryption := fun x => (Ok true, x);
  lookupSavedPassword := fun _ x => (Ok None, x);
  saveGitAuth := fun _ _ x => (Ok tt, x);
  confirm := fun _ x => (true, x);
  prompt := fun m x => (Some m, x);
  dateNow := fun x => (x.2, x);
  cloneBehaviour := fun _ _ => Reject (ThrowError (newError "HTTP Error: 404 Not Found")) |}.

(** A form whose repository name is an ideographic space (U+3000) and a
    space, and a store that reports the rate limit. *)
Definition blankForm : Workbench.formState :=
  Workbench.mkForm (Js.utf8 0x3000 +:+ " ") "alice" "ghp_0123456789" false false "".

Definition limitedStore (args : Workbench.pushArgs) (x : unit) : outcome string * unit :=
  (Throw (ThrowError (newError "API rate limit exceeded")), x).

(** The files store's map with one file and its folder, and the editor
    store around the stores of [editor]. *)
Definition files : EditorStoreMethods.FileMap :=
  {[ "src/a.ts" := Some (EditorStoreMethods.File "let a = 0" false);
     "src" := Some EditorStoreMethods.Folder ]}.

Definition files' : EditorStoreMethods.FileMap :=
  {[ "src/a.ts" := Some (EditorStoreMethods.File "let a = 7" false) ]}.

Definition store : @EditorStoreMethods.editor (list (string * string * string)) (gset string) :=
  EditorStoreMethods.mkEditor editor ∅ None.

(** GitHub with two branches. *)
Definition branchesOf (auth owner repo : string) (x : unit) : outcome (list string) * unit :=
  (Ok ["main"; "dev"], x).

End ConcreteMore.

(** ** Vocabulary of the properties *)

(** The one error [stat] throws for the path [p]. *)
Definition enoent (p : string) : thrown :=
  ThrowError (mkError (useGit.enoentMessage p) (Some "ENOENT") (Some (-2)%Z)
                (Some "stat") (Some p)).

(** What the client is asked to record by the event [e]: a call of its
    [writeFile] with an options object comes with the pair for the
    workdir-relative path. *)
Definition recordedWrite {X} (webcontainer : useGit.WebContainer X) (e : useGit.event)
    : option (string * useGit.fileEntry) :=
  match e with
  | useGit.Called (useGit.CallFs (useGit.WriteFile p d (Some o))) =>
      Some (pathUtils.relative (useGit.workdir webcontainer) p,
            useGit.mkEntry d (getProp o "encoding"))
  | _ => None
  end.

(** The writes made through the client during a run, oldest first. *)
Definition written {X} (webcontainer : useGit.WebContainer X) (evs : list useGit.event)
    : list (string * useGit.fileEntry) :=
  omap (recordedWrite webcontainer) evs.

(** The record after the assignments [record[path] = pair] for the writes
    [writes], in order, on the record [m]. *)
Definition replay (m : gmap string useGit.fileEntry)
    (writes : list (string * useGit.fileEntry)) : gmap string useGit.fileEntry :=
  fold_left (fun m kv => assign kv.1 kv.2 m) writes m.

(** A computation that leaves the record alone and whose interactions
    record nothing. *)
Definition quiet {X A} (webcontainer : useGit.WebContainer X)
    (m : Eff.M (useGit.world X) useGit.event A) : Prop :=
  forall w,
    written webcontainer (events (m w)) = [] /\
    useGit.fileData (final (m w)) = useGit.fileData w.

(** The pair the latest write to the path [k] recorded, if there is one. *)
Definition lastWrite (k : string) (writes : list (string * useGit.fileEntry))
    : option useGit.fileEntry :=
  snd <$> last (filter (fun kv => kv.1 = k) writes).

(** The condition under which the push handler is meant to reach the store:
    the three fields are filled in, the token has one of the two prefixes of
    a personal access token and, when a new branch is asked for, its name is
    not empty, has none of the eight characters and does not end with a
    dot. *)
Definition pushAllowed (f : Workbench.formState) : Prop :=
  Workbench.githubRepoName f <> "" /\
  Workbench.githubUsername f <> "" /\
  Workbench.githubToken f <> "" /\
  ((exists rest, Workbench.githubToken f = "ghp_" +:+ rest) \/
   (exists rest, Workbench.githubToken f = "github_pat_" +:+ rest)) /\
  (Workbench.isNewBranch f = true ->
     Workbench.newBranchName f <> "" /\
     (forall c, In c ["~"; "^"; ":"; "?"; "*"; "["; "]"; "\"]%char ->
                ~ In c (list_ascii_of_string (Workbench.newBranchName f))) /\
     ~ exists front, Workbench.newBranchName f = front +:+ ".").

(** A string without the slash, such as one segment of a path. *)
Definition noSlash (s : string) : Prop :=
  Forall (fun c => c <> pathUtils.slash) (list_ascii_of_string s).

(** The path a call of the container's filesystem is made with. *)
Definition containerPath (e : useGit.event) : option string :=
  match e with
  | useGit.FsReadFile p _ | useGit.FsWriteFile p _ _ | useGit.FsMkdir p _
  | useGit.FsReaddir p _ | useGit.FsRm p _ => Some p
  | _ => None
  end.

(** A computation all of whose interactions satisfy [P]. *)
Definition always {X A} (P : useGit.event -> Prop)
    (m : Eff.M (useGit.world X) useGit.event A) : Prop :=
  forall w, Forall P (events (m w)).

(** In the list [evs] the interaction [later] happens only after [first]. *)
Definition after (first later : useGit.event) (evs : list useGit.event) : Prop :=
  exists pre post, evs = pre ++ first :: post /\ In later post.

(** Every document sits under its own path. *)
Definition keyed (documents : gmap string EditorStore.EditorDocument) : Prop :=
  forall p d, documents !! p = Some d -> EditorStore.filePath d = Some p.

(** One white space character, as a string. *)
Definition white (c : string) : Prop :=
  exists codePoint, In codePoint Js.whiteSpace /\ c = Js.utf8 codePoint.

(** A string with no white space character at either end. *)
Definition trimmed (s : string) : Prop :=
  forall c, white c ->
    (forall rest, s <> c +:+ rest) /\ (forall front, s <> front +:+ c).

(** A string of white space characters only. *)
Definition blank (s : string) : Prop :=
  exists cs, Forall white cs /\ s = String.concat "" cs.

(** None of the strings [seps] is the beginning of another one. *)
Definition prefixFree (seps : list string) : bool :=
  forallb (fun a => forallb (fun b => String.eqb a b || negb (Js.startsWith b a)) seps) seps.

(** One segment of a path: not empty, no slash. *)
Definition segment (s : string) : Prop := s <> "" /\ noSlash s.

(** A path the container is addressed with that is relative and in normal
    form: not empty and, cut at the slashes, without an empty segment. *)
Definition normalPath (p : string) : Prop :=
  p <> "" /\ Forall segment (Js.split pathUtils.slash p).

(** An interaction that, when it is a call of the container's filesystem,
    uses a normal relative path. *)
Definition confined (e : useGit.event) : Prop :=
  forall p, containerPath e = Some p -> normalPath p.

(** A string made of slashes only. *)
Definition allSlash (s : string) : Prop :=
  Forall (fun c => c = pathUtils.slash) (list_ascii_of_string s).

(** * Properties *)

(** ** JavaScript strings *)

Section Strings.
Import Js.

Lemma isEmpty_true (s : string) : isEmpty s = true <-> s = "".
Proof. destruct s; simpl; split; congruence. Qed.

Lemma isEmpty_false (s : string) : isEmpty s = false <-> s <> "".
Proof. destruct s; simpl; split; congruence. Qed.

Lemma append_nil (t : string) : "" +:+ t = t.
Proof. reflexivity. Qed.

Lemma append_cons (c : ascii) (s t : string) : String c s +:+ t = String c (s +:+ t).
Proof. reflexivity. Qed.

Lemma startsWith_spec (pre : string) :
  forall s, startsWith s pre = true <-> exists rest, s = pre +:+ rest.
Proof.
  induction pre as [|a pre IH]; intros s; simpl.
  - split; [intros _; exists s; reflexivity | reflexivity].
  - destruct s as [|b s].
    + split; [discriminate | intros [rest Hr]; rewrite append_cons in Hr; discriminate Hr].
    + rewrite andb_true_iff, Ascii.eqb_eq, IH. split.
      * intros [-> [rest ->]]. exists rest. reflexivity.
      * intros [rest Hr]. rewrite append_cons in Hr. injection Hr as -> ->.
        split; [reflexivity | eauto].
Qed.

Lemma append_empty_r (s : string) : s +:+ "" = s.
Proof.
  induction s as [|c s IH]; [reflexivity|]. rewrite append_cons, IH. reflexivity.
Qed.

Lemma append_assoc (a b c : string) : (a +:+ b) +:+ c = a +:+ (b +:+ c).
Proof.
  induction a as [|x a IH]; [reflexivity|]. rewrite !append_cons, IH. reflexivity.
Qed.

Lemma rev_onto_app (s : string) : forall acc, rev_onto s acc = reverse s +:+ acc.
Proof.
  unfold reverse. induction s as [|c s IH]; intros acc; simpl; [reflexivity|].
  rewrite (IH (String c acc)), (IH (String c "")), append_assoc. reflexivity.
Qed.

Lemma reverse_cons (c : ascii) (s : string) : reverse (String c s) = reverse s +:+ String c "".
Proof. unfold reverse at 1. simpl. apply rev_onto_app. Qed.

Lemma reverse_app (a b : string) : reverse (a +:+ b) = reverse b +:+ reverse a.
Proof.
  induction a as [|c a IH].
  - rewrite append_nil. symmetry. apply append_empty_r.
  - rewrite append_cons, !reverse_cons, IH, append_assoc. reflexivity.
Qed.

Lemma reverse_involutive (s : string) : reverse (reverse s) = s.
Proof.
  induction s as [|c s IH]; [reflexivity|].
  rewrite reverse_cons, reverse_app, IH. reflexivity.
Qed.

Lemma endsWith_spec (s suf : string) :
  endsWith s suf = true <-> exists front, s = front +:+ suf.
Proof.
  unfold endsWith. rewrite startsWith_spec. split.
  - intros [rest Hr]. exists (reverse rest).
    rewrite <- (reverse_involutive s), Hr, reverse_app, reverse_involutive. reflexivity.
  - intros [front ->]. exists (reverse front). apply reverse_app.
Qed.

End Strings.

(** ** pathUtils.relative *)

Section PathUtils.
Import pathUtils.

Example relative_inside :
  relative "/home/project" "/home/project/src/a.ts" = "src/a.ts".
Proof. reflexivity. Qed.

Example relative_sibling : relative "/home/project/a" "/home/b/" = "../../b".
Proof. reflexivity. Qed.

Example dirname_nested : dirname "src/lib/a.ts" = "src/lib" /\ dirname "a.ts" = ".".
Proof. split; reflexivity. Qed.

Example basename_nested :
  basename "src/lib/a.ts" None = "a.ts" /\ basename "src/lib/a.ts" (Some ".ts") = "a".
Proof. split; reflexivity. Qed.

Lemma commonLoop_same (l : list string) :
  forall fuel i c, i + fuel <= length l -> commonLoop l l i fuel c = c + fuel.
Proof.
  induction fuel as [|fuel IH]; intros i c Hle; simpl.
  - lia.
  - destruct (lookup_lt_is_Some_2 l i ltac:(lia)) as [a Ha].
    rewrite Ha, String.eqb_refl, IH by lia. lia.
Qed.

Lemma relative_same (p : string) : relative p p = ".".
Proof.
  unfold relative. destruct (Js.isEmpty p); [reflexivity|]. simpl.
  rewrite Nat.min_id, commonLoop_same by lia. simpl.
  rewrite Nat.sub_diag, drop_all. reflexivity.
Qed.

Lemma relative_empty_from (to : string) : relative "" to = ".".
Proof. reflexivity. Qed.

Lemma relative_empty_to (from : string) : relative from "" = ".".
Proof. unfold relative. destruct (Js.isEmpty from); reflexivity. Qed.
End PathUtils.

(** C9. [pathUtils.relative(p, p)] is ['.'] for every string [p];
    [pathUtils.relative(from, to)] is ['.'] as soon as one of the two
    arguments is the empty string; so the path translation of the filesystem
    client maps the workdir itself to ['.']: asked to read the directory
    [workdir], the client reads the directory ['.'] of the container. *)
Theorem relative_dot :
  (forall p, pathUtils.relative p p = ".") /\
  (forall to, pathUtils.relative "" to = ".") /\
  (forall from, pathUtils.relative from "" = ".") /\
  (forall X (webcontainer : useGit.WebContainer X) options (w : useGit.world X),
     events (useGit.readdir webcontainer (useGit.workdir webcontainer) options w) =
       [useGit.ConsoleLog [useGit.LVal (VStr "readdir"); useGit.LVal (VStr ".");
                           useGit.LObj options];
        useGit.FsReaddir "." options]).
Proof.
  split; [exact relative_same|].
  split; [exact relative_empty_from|].
  split; [exact relative_empty_to|].
  intros X wc o w. unfold useGit.readdir. rewrite relative_same.
  unfold bind, useGit.console_log, emit, useGit.await, events.
  destruct (useGit.c_readdir _ _ _ _) as [r x]. reflexivity.
Qed.

(** ** The filesystem client *)

Section Client.
Import useGit.
Context {X : Type}.

(** [{ ...options, encoding: options.encoding }] reads like [options]. *)
Lemma getProp_setProp_same (o : jsobject) (k j : string) :
  getProp (setProp k (getProp o k) o) j = getProp o j.
Proof.
  unfold setProp, getProp. destruct (decide (k = j)) as [->|Hne].
  - rewrite lookup_insert_eq. reflexivity.
  - rewrite lookup_insert_ne by exact Hne. reflexivity.
Qed.

(** C1. For every path [p] and options object [o], [readFile(p, o)] of the
    client returns exactly what the container's [fs.readFile] returns (or
    rejects with) at [pathUtils.relative(workdir, p)] and [o.encoding]: the
    world after the call is the one the container call leaves, the
    [fileData] record is untouched, and the container is called once; the
    only other interaction is the diagnostic line written to the console. *)
Theorem readFile_forwards (webcontainer : WebContainer X)
    (p : string) (o : jsobject) (w : world X) :
  let relativePath := pathUtils.relative (workdir webcontainer) p in
  let encoding := getProp o "encoding" in
  let forwarded := c_readFile (fs webcontainer) relativePath encoding (outside w) in
  result (readFile webcontainer p (Some o) w) = forwarded.1 /\
  outside (final (readFile webcontainer p (Some o) w)) = forwarded.2 /\
  fileData (final (readFile webcontainer p (Some o) w)) = fileData w /\
  events (readFile webcontainer p (Some o) w) =
    [ConsoleLog [LVal (VStr "readFile"); LVal (VStr relativePath); LVal encoding];
     FsReadFile relativePath encoding].
Proof.
  intros relativePath encoding forwarded.
  unfold readFile, member, bind, ret, console_log, emit, await, result, final, events.
  fold relativePath encoding. simpl. fold forwarded.
  destruct forwarded as [r x]. simpl. auto.
Qed.

Lemma assign_proto {A} (v : A) (object : gmap string A) :
  assign "__proto__" v object = object.
Proof. reflexivity. Qed.

Lemma assign_other {A} (key : string) (v : A) (object : gmap string A) :
  key <> "__proto__" -> assign key v object = <[key := v]> object.
Proof. intros Hkey. unfold assign. apply String.eqb_neq in Hkey. rewrite Hkey. reflexivity. Qed.

(** What [writeFile(p, d, o)] of the client does for an options object [o]:
    it writes [d] to the container at the workdir-relative translation of
    [p] with the options of [o] (its [encoding] spelled out) and assigns the
    pair [{ data: d, encoding: o.encoding }] to the [fileData] record under
    that relative path. After the call the record maps that key to exactly
    that pair and every other key as before, unless the relative path is
    [__proto__]: then the record has the entries it had. *)
Lemma writeFile_records (webcontainer : WebContainer X)
    (p : string) (d : jsval) (o : jsobject) (w : world X) :
  let relativePath := pathUtils.relative (workdir webcontainer) p in
  let encoding := getProp o "encoding" in
  let options' := setProp "encoding" encoding o in
  let forwarded := c_writeFile (fs webcontainer) relativePath d options' (outside w) in
  let run := writeFile webcontainer p d (Some o) w in
  result run = forwarded.1 /\
  outside (final run) = forwarded.2 /\
  events run =
    [ConsoleLog [LVal (VStr "writeFile");
                 LObj (Some (setProp "relativePath" (VStr relativePath)
                              (setProp "data" d (setProp "encoding" encoding ∅))))];
     FsWriteFile relativePath d options'] /\
  (forall k, getProp options' k = getProp o k) /\
  (relativePath <> "__proto__" ->
   fileData (final run) = <[relativePath := mkEntry d encoding]> (fileData w)) /\
  (relativePath = "__proto__" -> fileData (final run) = fileData w).
Proof.
  intros relativePath encoding options' forwarded run. subst run.
  unfold writeFile, member, bind, ret, console_log, emit, await, record_set,
    result, final, events.
  fold relativePath encoding. simpl. fold options' forwarded.
  destruct forwarded as [r x]. simpl.
  repeat split; auto.
  - intros k. apply getProp_setProp_same.
  - intros Hkey. apply assign_other, Hkey.
  - intros ->. apply assign_proto.
Qed.

Context {svc : Services X}.

(** What [stat] does, case by case on what the container's [readdir]
    produces. *)
Lemma stat_cases (webcontainer : WebContainer X) (p : string) (w : world X) :
  let relativePath := pathUtils.relative (workdir webcontainer) p in
  let listing := c_readdir (fs webcontainer) (pathUtils.dirname relativePath)
                   (Some {[ "withFileTypes" := VBool true ]}) (outside w) in
  match listing.1 with
  | Throw _ => result (stat webcontainer p w) = Throw (enoent p)
  | Ok resp =>
      match findEntry resp (pathUtils.basename relativePath None) with
      | None => result (stat webcontainer p w) = Throw (enoent p)
      | Some fileInfo =>
          result (stat webcontainer p w) =
            Ok (mkStats (dirent_isFile fileInfo) (dirent_isDirectory fileInfo)
                  false 1 438 (dateNow listing.2).1 1000 1000)
      end
  end.
Proof.
  intros relativePath listing.
  unfold stat, tryCatch, bind, await, ask, throw, ret, console_log, emit, result.
  fold relativePath. simpl. fold listing.
  destruct listing as [[resp|t] x]; simpl; [|reflexivity].
  destruct (findEntry resp _) as [fileInfo|]; simpl; [|reflexivity].
  destruct (dateNow x) as [now x']. reflexivity.
Qed.

(** C8. For every path, [stat] of the client either returns a stats object
    whose [isSymbolicLink()] is false, whose [size] is 1 and whose [mode] is
    [0o666] (438 in decimal), or throws an error whose [code] is ['ENOENT'], [errno] is -2
    and [syscall] is ['stat']; whatever the container's [readdir] rejects
    with, and also a missing entry, becomes that one error; and [lstat] does
    exactly what [stat] does. *)
Theorem stat_shape (webcontainer : WebContainer X) (p : string) (w : world X) :
  match result (stat webcontainer p w) with
  | Ok s => isSymbolicLink s = false /\ size s = 1%Z /\ mode s = 438%Z
  | Throw t =>
      t = enoent p /\
      exists e, t = ThrowError e /\ code e = Some "ENOENT" /\
                errno e = Some (-2)%Z /\ syscall e = Some "stat"
  end /\
  match (c_readdir (fs webcontainer)
           (pathUtils.dirname (pathUtils.relative (workdir webcontainer) p))
           (Some {[ "withFileTypes" := VBool true ]}) (outside w)).1 with
  | Throw _ => result (stat webcontainer p w) = Throw (enoent p)
  | Ok _ => True
  end /\
  lstat webcontainer p w = stat webcontainer p w.
Proof.
  pose proof (stat_cases webcontainer p w) as Hc. simpl in Hc.
  split; [|split; [|reflexivity]].
  - destruct (c_readdir _ _ _ _).1 as [resp|t].
    + destruct (findEntry resp _) as [fileInfo|]; rewrite Hc; simpl.
      * auto.
      * split; [reflexivity|]. eexists; split; [reflexivity|]. simpl. auto.
    + rewrite Hc. split; [reflexivity|]. eexists; split; [reflexivity|]. simpl. auto.
  - destruct (c_readdir _ _ _ _).1 as [resp|t]; [exact I|exact Hc].
Qed.

(** C4. For every url, if the webcontainer, the fs client or the ready flag
    is not set, [gitClone(url)] throws ['Webcontainer not initialized']
    before it clears the [fileData] record or calls the git library: the
    world is left as it was and nothing was interacted with. *)
Theorem gitClone_not_initialized (h : hookState) (url : string) (w : world X) :
  webcontainer h = None \/ fsState h = None \/ ready h = false ->
  gitClone h url w = (Throw (ThrowValue (VStr "Webcontainer not initialized")), w, []).
Proof.
  intros Hpre. unfold gitClone.
  destruct (webcontainer h) as [wc|]; [|reflexivity].
  destruct (fsState h) as [client|]; [|reflexivity].
  destruct (ready h); [|reflexivity].
  destruct Hpre as [Hc|[Hc|Hc]]; discriminate Hc.
Qed.

End Client.

(** ** The push handler *)

Section Push.
Import Workbench.
Context {X : Type} (pushToGitHub : pushArgs -> X -> outcome string * X).

Lemma test_spec (class : list ascii) (s : string) :
  test class s = true <-> exists c, In c class /\ In c (list_ascii_of_string s).
Proof.
  unfold test. rewrite existsb_exists. split.
  - intros [c [Hc Hx]]. apply existsb_exists in Hx as [c' [Hc' He]].
    apply Ascii.eqb_eq in He. subst c'. eauto.
  - intros [c [Hc Hs]]. exists c. split; [exact Hs|].
    apply existsb_exists. exists c. split; [exact Hc | apply Ascii.eqb_refl].
Qed.

Lemma isValidBranchName_spec (branchName : string) :
  isValidBranchName branchName = true <->
  branchName <> "" /\
  (forall c, In c invalidCharacters -> ~ In c (list_ascii_of_string branchName)) /\
  ~ exists front, branchName = front +:+ ".".
Proof.
  unfold isValidBranchName.
  rewrite !andb_true_iff, !negb_true_iff, Nat.ltb_lt.
  rewrite <- !not_true_iff_false, test_spec, endsWith_spec.
  split.
  - intros [[Hlen Hcls] Hdot]. repeat split; [| |exact Hdot].
    + intros ->. simpl in Hlen. lia.
    + intros c Hc Hs. apply Hcls. eauto.
  - intros [Hne [Hcls Hdot]]. repeat split; [| |exact Hdot].
    + destruct branchName; [congruence | simpl; lia].
    + intros [c [Hc Hs]]. exact (Hcls c Hc Hs).
Qed.

Example branch_names :
  isValidBranchName "feature/login" = true /\
  isValidBranchName "" = false /\
  isValidBranchName "a[1]" = false /\
  isValidBranchName "release." = false.
Proof. repeat split; reflexivity. Qed.

Lemma push_calls_store (f : formState) (x : X) :
  exists args rest,
    events (push pushToGitHub f x) = SetIsGitHubPushing true :: PushToGitHub args :: rest.
Proof.
  unfold push, tryFinally, tryCatch, bind, await_push, emit, toast_error, events.
  simpl.
  destruct (pushToGitHub _ x) as [[repoUrl|t] x']; simpl.
  - eauto.
  - repeat match goal with |- context [if ?b then _ else _] => destruct b end;
      simpl; eauto.
Qed.

Lemma gate_refuses (f : formState) (x : X) (msg : string) :
  handleGitHubPush pushToGitHub f x = toast_error msg x ->
  ~ pushAllowed f ->
  let run := handleGitHubPush pushToGitHub f x in
  ((exists args, In (PushToGitHub args) (events run)) <-> pushAllowed f) /\
  (~ pushAllowed f ->
     exists msg, events run = [ToastError msg] /\ final run = x /\ result run = Ok tt).
Proof.
  intros Hrun Hno. simpl. rewrite Hrun. split.
  - split; [|intros Hyes; contradiction].
    intros [args [Hin|[]]]. discriminate Hin.
  - intros _. exists msg. auto.
Qed.

Lemma gate_accepts (f : formState) (x : X) :
  handleGitHubPush pushToGitHub f x = push pushToGitHub f x ->
  pushAllowed f ->
  let run := handleGitHubPush pushToGitHub f x in
  ((exists args, In (PushToGitHub args) (events run)) <-> pushAllowed f) /\
  (~ pushAllowed f ->
     exists msg, events run = [ToastError msg] /\ final run = x /\ result run = Ok tt).
Proof.
  intros Hrun Hyes. simpl. rewrite Hrun. split; [|intros Hno; contradiction].
  split; [intros _; exact Hyes|]. intros _.
  destruct (push_calls_store f x) as [args [rest ->]].
  exists args. right. left. reflexivity.
Qed.

(** C7. [handleGitHubPush] calls [pushToGitHub] of the store only when the
    repository name, the username and the token are non-empty, the token
    starts with ['ghp_'] or ['github_pat_'] and, when a new branch is asked
    for, the branch name is non-empty, has none of the characters
    [~ ^ : ? * [ ] \] and does not end with a dot; in every other case it
    reports one error and returns, the store left alone. *)
Theorem handleGitHubPush_gate (f : formState) (x : X) :
  let run := handleGitHubPush pushToGitHub f x in
  ((exists args, In (PushToGitHub args) (events run)) <-> pushAllowed f) /\
  (~ pushAllowed f ->
     exists msg, events run = [ToastError msg] /\ final run = x /\ result run = Ok tt).
Proof.
  destruct (Js.isEmpty (githubRepoName f)) eqn:Erepo.
  { eapply gate_refuses.
    - unfold handleGitHubPush. rewrite Erepo. reflexivity.
    - apply isEmpty_true in Erepo. unfold pushAllowed. tauto. }
  destruct (Js.isEmpty (githubUsername f)) eqn:Euser.
  { eapply gate_refuses.
    - unfold handleGitHubPush. rewrite Erepo, Euser. reflexivity.
    - apply isEmpty_true in Euser. unfold pushAllowed. tauto. }
  destruct (Js.isEmpty (githubToken f)) eqn:Etoken.
  { eapply gate_refuses.
    - unfold handleGitHubPush. rewrite Erepo, Euser, Etoken. reflexivity.
    - apply isEmpty_true in Etoken. unfold pushAllowed. tauto. }
  destruct (negb (Js.startsWith (githubToken f) "ghp_")
            && negb (Js.startsWith (githubToken f) "github_pat_")) eqn:Eprefix.
  { eapply gate_refuses.
    - unfold handleGitHubPush. rewrite Erepo, Euser, Etoken, Eprefix. reflexivity.
    - apply andb_true_iff in Eprefix as [Eghp Epat].
      apply negb_true_iff, not_true_iff_false in Eghp, Epat.
      rewrite startsWith_spec in Eghp, Epat. unfold pushAllowed. tauto. }
  assert (Htok : (exists rest, githubToken f = "ghp_" +:+ rest) \/
                 (exists rest, githubToken f = "github_pat_" +:+ rest)).
  { apply andb_false_iff in Eprefix as [E|E]; apply negb_false_iff in E;
      apply startsWith_spec in E; auto. }
  apply isEmpty_false in Erepo as Hrepo, Euser as Huser, Etoken as Htoken.
  destruct (isNewBranch f) eqn:Enew.
  2: { apply gate_accepts.
       - unfold handleGitHubPush. rewrite Erepo, Euser, Etoken, Eprefix, Enew. reflexivity.
       - unfold pushAllowed. rewrite Enew. repeat split; auto; discriminate. }
  destruct (Js.isEmpty (newBranchName f)) eqn:Ename.
  { eapply gate_refuses.
    - unfold handleGitHubPush.
      rewrite Erepo, Euser, Etoken, Eprefix, Enew, Ename. reflexivity.
    - apply isEmpty_true in Ename. unfold pushAllowed.
      intros (_ & _ & _ & _ & Hb). destruct (Hb Enew) as [Hne _]. congruence. }
  destruct (isValidBranchName (newBranchName f)) eqn:Evalid.
  - apply gate_accepts.
    + unfold handleGitHubPush.
      rewrite Erepo, Euser, Etoken, Eprefix, Enew, Ename, Evalid. reflexivity.
    + apply isValidBranchName_spec in Evalid. unfold pushAllowed.
      repeat split; auto; apply Evalid.
  - eapply gate_refuses.
    + unfold handleGitHubPush.
      rewrite Erepo, Euser, Etoken, Eprefix, Enew, Ename, Evalid. reflexivity.
    + apply not_true_iff_false in Evalid. rewrite isValidBranchName_spec in Evalid.
      unfold pushAllowed. intros (_ & _ & _ & _ & Hb). apply Evalid. exact (Hb Enew).
Qed.

End Push.

(** ** EditorStore.updateFile *)

Section Editor.
Import EditorStore.
Context {History Files : Type}.
Variable addVersion : string -> string -> string -> History -> History.
Variable isExistingFile : Files -> string -> bool.

Lemma getProperty_own (documents : gmap string EditorDocument) (key : string)
    (document : EditorDocument) :
  documents !! key = Some document -> getProperty documents key = Some (Own document).
Proof. intros Hd. unfold getProperty. rewrite Hd. reflexivity. Qed.

Lemma getProperty_None (documents : gmap string EditorDocument) (key : string) :
  getProperty documents key = None <->
  documents !! key = None /\ key ∉ inheritedNames.
Proof.
  unfold getProperty. destruct (documents !! key) as [document|].
  - split; [discriminate|]. intros [Hd _]. discriminate Hd.
  - destruct (bool_decide_reflect (key ∈ inheritedNames)) as [Hin|Hout].
    + split; [discriminate|]. intros [_ Hout]. contradiction.
    + split; auto.
Qed.

Lemma getProperty_inherited (documents : gmap string EditorDocument) (key : string) :
  documents !! key = None -> key ∈ inheritedNames ->
  getProperty documents key = Some (Inherited key).
Proof.
  intros Hd Hin. unfold getProperty. rewrite Hd.
  rewrite bool_decide_eq_true_2 by exact Hin. reflexivity.
Qed.

(** [updateFile(filePath, newContent)] leaves the documents store, the
    version history, [unsavedFiles] and [modifiedFiles] as they are whenever
    [documents[filePath]] is [undefined] (the path has no document and is no
    name inherited from [Object.prototype]) or [newContent] is the value
    found there; and also when the content changes, [unsavedFiles] and
    [modifiedFiles] change only for a file the files store takes for an
    existing one. *)
Lemma updateFile_frame (filePath newContent : string) (s : @stores History Files) :
  let s' := updateFile addVersion isExistingFile filePath newContent s in
  ((documents s !! filePath = None /\ filePath ∉ inheritedNames) \/
   (exists documentState,
      documents s !! filePath = Some documentState /\
      value documentState = Some newContent) ->
   s' = s) /\
  (isExistingFile (filesStore s) filePath = false ->
   unsavedFiles s' = unsavedFiles s /\ modifiedFiles s' = modifiedFiles s).
Proof.
  simpl. unfold updateFile. split.
  - intros [Hnone | [documentState [Hsome Hvalue]]].
    + apply getProperty_None in Hnone. rewrite Hnone. reflexivity.
    + rewrite (getProperty_own _ _ _ Hsome). cbn [fields]. rewrite Hvalue.
      rewrite bool_decide_eq_true_2 by reflexivity. reflexivity.
  - intros Hnew. destruct (getProperty (documents s) filePath) as [found|]; [|auto].
    destruct (negb _); [|auto]. rewrite Hnew. simpl. auto.
Qed.

End Editor.

(** ** The credential callback of gitClone *)

Section Auth.
Import useGit.
Context {X : Type} {svc : Services X}.

Ltac no_dialog :=
  let Hin := fresh "Hin" in
  intros [? [Hin|Hin]];
  repeat (destruct Hin as [Hin|Hin]; [discriminate Hin|]); destruct Hin.

Ltac run_onAuth :=
  unfold onAuth, bind, await, ask, ret, result, events; simpl.

Lemma onAuth_refused (url : string) (w : world X) :
  (ensureEncryption (outside w)).1 = Ok false ->
  result (onAuth url w) = Ok cancelled /\ events (onAuth url w) = [EnsureEncryption].
Proof.
  run_onAuth. destruct (ensureEncryption (outside w)) as [r x1]; simpl.
  intros ->. simpl. auto.
Qed.

Lemma onAuth_saved (url : string) (w : world X) (auth : GitAuth) :
  (ensureEncryption (outside w)).1 = Ok true ->
  (lookupSavedPassword url (ensureEncryption (outside w)).2).1 = Ok (Some auth) ->
  result (onAuth url w) = Ok auth /\
  events (onAuth url w) = [EnsureEncryption; LookupSavedPassword url].
Proof.
  run_onAuth. destruct (ensureEncryption (outside w)) as [r x1]; simpl.
  intros ->. simpl.
  destruct (lookupSavedPassword url x1) as [r x2]; simpl. intros ->. simpl. auto.
Qed.

Lemma onAuth_prompts_only_unsaved (url : string) (w : world X) :
  (exists msg, In (Confirm msg) (events (onAuth url w)) \/
               In (Prompt msg) (events (onAuth url w))) ->
  (ensureEncryption (outside w)).1 = Ok true /\
  (lookupSavedPassword url (ensureEncryption (outside w)).2).1 = Ok None.
Proof.
  run_onAuth. destruct (ensureEncryption (outside w)) as [[[|]|t] x1]; simpl;
    [|no_dialog|no_dialog].
  destruct (lookupSavedPassword url x1) as [[[auth|]|t] x2]; simpl;
    [no_dialog|auto|no_dialog].
Qed.

Lemma onAuth_incomplete (url : string) (w : world X) :
  let encrypted := ensureEncryption (outside w) in
  let saved := lookupSavedPassword url encrypted.2 in
  let ready := confirm confirmText saved.2 in
  let username := prompt "Enter username" ready.2 in
  let password := prompt "Enter password" username.2 in
  encrypted.1 = Ok true -> saved.1 = Ok None ->
  (ready.1 = false \/ username.1 = None \/ username.1 = Some "" \/
   password.1 = None \/ password.1 = Some "") ->
  result (onAuth url w) = Ok cancelled.
Proof.
  run_onAuth. destruct (ensureEncryption (outside w)) as [r x1]; simpl.
  intros ->. simpl.
  destruct (lookupSavedPassword url x1) as [r x2]; simpl. intros ->. simpl.
  destruct (confirm confirmText x2) as [[|] x3]; simpl; [|reflexivity].
  destruct (prompt "Enter username" x3) as [u x4]; simpl.
  destruct (prompt "Enter password" x4) as [p x5]; simpl.
  intros Hbad. unfold bothGiven.
  destruct u as [[|c u]|], p as [[|c' p]|]; simpl; try reflexivity.
  destruct Hbad as [Hb|[Hb|[Hb|[Hb|Hb]]]]; discriminate Hb.
Qed.

Lemma onAuth_complete (url : string) (w : world X) (u p : string) :
  let encrypted := ensureEncryption (outside w) in
  let saved := lookupSavedPassword url encrypted.2 in
  let ready := confirm confirmText saved.2 in
  let username := prompt "Enter username" ready.2 in
  let password := prompt "Enter password" username.2 in
  encrypted.1 = Ok true -> saved.1 = Ok None -> ready.1 = true ->
  username.1 = Some u -> password.1 = Some p -> u <> "" -> p <> "" ->
  result (onAuth url w) = Ok (mkAuth (Some u) (Some p) false) /\
  events (onAuth url w) =
    [EnsureEncryption; LookupSavedPassword url; Confirm confirmText;
     Prompt "Enter username"; Prompt "Enter password"].
Proof.
  run_onAuth. destruct (ensureEncryption (outside w)) as [r x1]; simpl.
  intros ->. simpl.
  destruct (lookupSavedPassword url x1) as [r x2]; simpl. intros ->. simpl.
  destruct (confirm confirmText x2) as [r x3]; simpl. intros ->. simpl.
  destruct (prompt "Enter username" x3) as [r x4]; simpl. intros ->.
  destruct (prompt "Enter password" x4) as [r x5]; simpl. intros ->.
  intros Hu Hp. destruct u; [congruence|]. destruct p; [congruence|]. simpl. auto.
Qed.


End Auth.

(** ** gitClone *)

Section Clone.
Import useGit.
Context {X : Type} {svc : Services X}.

(** The copy is the record itself: the record never has an own property
    [__proto__]. *)
Lemma copyEntries_id (m : gmap string fileEntry) :
  m !! "__proto__" = None -> copyEntries m = m.
Proof.
  intros Hproto. unfold copyEntries.
  rewrite <- (list_to_map_to_list m) at 2.
  rewrite <- fold_left_rev_right, rev_alt.
  change (rev_append (map_to_list m) []) with (reverse (map_to_list m)).
  erewrite <- (list_to_map_proper (reverse (map_to_list m)) (map_to_list m)).
  - assert (Hkeys : Forall (fun kv => kv.1 <> "__proto__") (reverse (map_to_list m))).
    { apply Forall_forall. intros [k v] Hin. rewrite elem_of_reverse, elem_of_map_to_list in Hin.
      cbn. congruence. }
    induction Hkeys as [|kv l Hkv Hl IH]; simpl; [reflexivity|].
    rewrite IH. apply assign_other, Hkv.
  - rewrite fmap_reverse, reverse_Permutation. apply NoDup_fst_map_to_list.
  - apply reverse_Permutation.
Qed.

Lemma replay_app (m : gmap string fileEntry) (a b : list (string * fileEntry)) :
  replay m (a ++ b) = replay (replay m a) b.
Proof. apply fold_left_app. Qed.

(** An assignment to [__proto__] never shows among the own properties. *)
Lemma replay_proto (writes : list (string * fileEntry)) :
  forall m, replay m writes !! "__proto__" = m !! "__proto__".
Proof.
  induction writes as [|kv writes IH]; intros m; [reflexivity|].
  change (replay m (kv :: writes)) with (replay (assign kv.1 kv.2 m) writes).
  rewrite IH. unfold assign. destruct (String.eqb_spec kv.1 "__proto__") as [Hk|Hk];
    [reflexivity|]. apply lookup_insert_ne. exact Hk.
Qed.

Lemma replay_lookup (writes : list (string * fileEntry)) :
  forall m k,
    k <> "__proto__" ->
    replay m writes !! k =
      match lastWrite k writes with Some e => Some e | None => m !! k end.
Proof.
  unfold lastWrite.
  induction writes as [|kv writes IH]; intros m k Hproto; [reflexivity|].
  change (replay m (kv :: writes)) with (replay (assign kv.1 kv.2 m) writes).
  rewrite IH, filter_cons by exact Hproto. destruct (decide (kv.1 = k)) as [Hk|Hk].
  - rewrite last_cons. destruct (last (filter _ writes)) as [kv'|]; simpl; [reflexivity|].
    rewrite assign_other by congruence. rewrite <- Hk. apply lookup_insert_eq.
  - destruct (last (filter _ writes)) as [kv'|]; simpl; [reflexivity|].
    unfold assign. destruct (String.eqb kv.1 "__proto__"); [reflexivity|].
    apply lookup_insert_ne. exact Hk.
Qed.

Lemma replay_dom (writes : list (string * fileEntry)) :
  forall m, dom (replay m writes) = dom m ∪ (list_to_set writes.*1 ∖ {[ "__proto__" ]}).
Proof.
  induction writes as [|kv writes IH]; intros m.
  - simpl. set_solver.
  - change (replay m (kv :: writes)) with (replay (assign kv.1 kv.2 m) writes).
    rewrite IH. unfold assign. destruct (String.eqb_spec kv.1 "__proto__") as [Hk|Hk].
    + simpl. rewrite Hk. set_solver.
    + rewrite dom_insert_L. simpl. set_solver.
Qed.

Lemma written_app (webcontainer : WebContainer X) (a b : list event) :
  written webcontainer (a ++ b) = written webcontainer a ++ written webcontainer b.
Proof. apply omap_app. Qed.

Section Quiet.
Variable webcontainer : WebContainer X.

Lemma quiet_ret {A} (a : A) : quiet webcontainer (ret a).
Proof. intros w. split; reflexivity. Qed.

Lemma quiet_throw {A} (t : thrown) : quiet webcontainer (throw (A := A) t).
Proof. intros w. split; reflexivity. Qed.

Lemma quiet_emit (e : event) :
  recordedWrite webcontainer e = None -> quiet webcontainer (emit e).
Proof. intros He w. unfold written, emit, events, final. simpl. rewrite He. auto. Qed.

Lemma quiet_await {A} (e : event) (op : X -> outcome A * X) :
  recordedWrite webcontainer e = None -> quiet webcontainer (await e op).
Proof.
  intros He w. unfold written, await, events, final.
  destruct (op (outside w)) as [r x]. simpl. rewrite He. auto.
Qed.

Lemma quiet_ask {A} (e : event) (op : X -> A * X) :
  recordedWrite webcontainer e = None -> quiet webcontainer (ask e op).
Proof.
  intros He w. unfold written, ask, events, final.
  destruct (op (outside w)) as [r x]. simpl. rewrite He. auto.
Qed.

Lemma quiet_bind {A B} (m : Eff.M (world X) event A) (f : A -> Eff.M (world X) event B) :
  quiet webcontainer m -> (forall a, quiet webcontainer (f a)) ->
  quiet webcontainer (bind m f).
Proof.
  intros Hm Hf w. unfold bind. specialize (Hm w).
  destruct (m w) as [[[a|t] w1] e1]; [|exact Hm].
  specialize (Hf a w1). destruct (f a w1) as [[r w2] e2].
  unfold events, final in *. simpl in *.
  rewrite written_app. destruct Hm as [-> <-], Hf as [-> ->]. auto.
Qed.

Lemma quiet_tryCatch {A} (m : Eff.M (world X) event A) (h : thrown -> Eff.M (world X) event A) :
  quiet webcontainer m -> (forall t, quiet webcontainer (h t)) ->
  quiet webcontainer (tryCatch m h).
Proof.
  intros Hm Hh w. unfold tryCatch. specialize (Hm w).
  destruct (m w) as [[[a|t] w1] e1]; [exact Hm|].
  specialize (Hh t w1). destruct (h t w1) as [[r w2] e2].
  unfold events, final in *. simpl in *.
  rewrite written_app. destruct Hm as [-> <-], Hh as [-> ->]. auto.
Qed.

End Quiet.

Ltac quiet :=
  repeat first
    [ apply quiet_ret
    | apply quiet_throw
    | apply quiet_emit; reflexivity
    | apply quiet_await; reflexivity
    | apply quiet_ask; reflexivity
    | apply quiet_bind; [|intros ?]
    | apply quiet_tryCatch; [|intros ?]
    | progress cbv zeta
    | match goal with
      | |- quiet _ (match ?t with _ => _ end) => destruct t
      end ].

(** A callback touches the record only through [writeFile], and what it
    does is no call of the library. *)
Lemma runCallback_frame (webcontainer : WebContainer X) (c : callback) (w : world X) :
  written webcontainer (events (runCallback (getFs webcontainer) c w)) = [] /\
  fileData (final (runCallback (getFs webcontainer) c w)) =
    replay (fileData w) (written webcontainer [Called c]).
Proof.
  destruct c as [call|u|u a|u a];
    [destruct call as [p o|p d [o|]|p o|p o|p o|p o|p|p|p|p|t p|p m]|..].
  2: { unfold runCallback, getFs, writeFile, member, record_set, console_log, bind,
         ret, emit, await, events, final. simpl.
       destruct (c_writeFile _ _ _ _ _) as [[[]|t] x]; simpl; auto. }
  all: match goal with
       | |- context [@runCallback _ _ ?client ?c ?w0] =>
           revert w0; change (quiet webcontainer (runCallback client c))
       end.
  all: unfold runCallback, getFs, readFile, writeFile, mkdir, readdir, rm, rmdir,
         unlink, stat, lstat, readlink, symlink, chmod, onAuth, onAuthFailure,
         onAuthSuccess, member, console_log, toast_error.
  all: quiet.
Qed.

Lemma runScript_records (webcontainer : WebContainer X) (s : gitScript) :
  forall w,
    fileData (final (runScript (getFs webcontainer) s w)) =
      replay (fileData w) (written webcontainer (events (runScript (getFs webcontainer) s w))).
Proof.
  induction s as [|t|c k IH]; intros w; [reflexivity|reflexivity|].
  cbn [runScript].
  pose proof (runCallback_frame webcontainer c w) as [Hnone Hrec].
  destruct (runCallback (getFs webcontainer) c w) as [[r w1] e1].
  specialize (IH r w1).
  destruct (runScript (getFs webcontainer) (k r) w1) as [[r' w2] e2].
  unfold final, events in *. cbn [fst snd] in *.
  change (Called c :: e1 ++ e2) with ([Called c] ++ e1 ++ e2).
  rewrite !written_app, Hnone, app_nil_l, replay_app, <- Hrec. exact IH.
Qed.

(** What a successful [gitClone(url)] returns: an object whose [workdir] is
    the container's workdir and whose [data] maps the workdir-relative paths
    written through [writeFile] of the client during that clone (the record
    is emptied when [gitClone] starts) to the pairs recorded for them, the
    latest one for a path written twice; except the path [__proto__], which
    [data] never has, written or not. *)
Lemma gitClone_data (h : hookState) (webcontainer : WebContainer X)
    (url : string) (w w' : world X) (res : cloneResult) (evs : list event) :
  useGit.webcontainer h = Some webcontainer ->
  fsState h = Some (getFs webcontainer) ->
  gitClone h url w = (Ok res, w', evs) ->
  result_workdir res = workdir webcontainer /\
  dom (result_data res) =
    list_to_set (written webcontainer evs).*1 ∖ {[ "__proto__" ]} /\
  (forall k, k <> "__proto__" ->
     result_data res !! k = lastWrite k (written webcontainer evs)) /\
  result_data res !! "__proto__" = None.
Proof.
  intros Hwc Hfs. unfold gitClone. rewrite Hwc, Hfs.
  destruct (ready h); [|discriminate].
  unfold bind, tryCatch, throw, ret, toast_error, emit, git_clone,
    record_reset, record_current.
  cbn [outside fileData].
  destruct (Js.startsWith url "git@"); [discriminate|].
  match goal with
  | |- context [runScript ?client ?s ?w0] =>
      pose proof (runScript_records webcontainer s w0) as Hrec;
      destruct (runScript client s w0) as [[[[]|t] w2] e2]
  end; [|discriminate].
  unfold final, events in Hrec. cbn [fst snd fileData] in Hrec.
  intros Hrun. injection Hrun as <- <- <-.
  cbn [result_workdir result_data].
  match goal with
  | |- context [written webcontainer ?l] =>
      replace (written webcontainer l) with (written webcontainer e2)
        by (rewrite !app_nil_r; reflexivity)
  end.
  rewrite Hrec.
  assert (Hproto : replay ∅ (written webcontainer e2) !! "__proto__" = None)
    by (rewrite replay_proto; apply lookup_empty).
  rewrite (copyEntries_id _ Hproto).
  split; [reflexivity|]. split; [|split; [|exact Hproto]].
  - rewrite replay_dom, dom_empty_L. set_solver.
  - intros k Hk. rewrite replay_lookup, lookup_empty by exact Hk.
    destruct (lastWrite k _); reflexivity.
Qed.

(** C5, as the code has it. Once the hook is initialized: for every url
    that starts with ['git@'], [gitClone(url)] throws an [Error] with the
    message ['SSH protocol is not supported. Please use HTTPS URL instead.']
    and the git library is not called (the error toast is the only
    interaction); for every other url [git.clone] is called with depth 1,
    singleBranch true and the workdir of the container as dir. *)
Theorem gitClone_ssh_or_clone (h : hookState) (webcontainer : WebContainer X)
    (client : PromiseFsClient) (url : string) (w : world X) :
  useGit.webcontainer h = Some webcontainer ->
  fsState h = Some client ->
  ready h = true ->
  ((exists rest, url = "git@" +:+ rest) ->
     result (gitClone h url w) = Throw (ThrowError (newError sshMessage)) /\
     events (gitClone h url w) = [ToastError sshMessage] /\
     forall args, ~ In (GitClone args) (events (gitClone h url w))) /\
  (~ (exists rest, url = "git@" +:+ rest) ->
     exists rest,
       events (gitClone h url w) =
         GitClone {| dir := workdir webcontainer;
                     url := url;
                     depth := 1;
                     singleBranch := true;
                     corsProxy := "https://cors.isomorphic-git.org" |} :: rest).
Proof.
  intros Hwc Hfs Hready. unfold gitClone. rewrite Hwc, Hfs, Hready.
  unfold bind, tryCatch, throw, ret, toast_error, emit, git_clone,
    record_reset, record_current, result, events.
  cbn [outside fileData].
  destruct (Js.startsWith url "git@") eqn:Essh.
  - split; [|intros Hno; exfalso; apply Hno, startsWith_spec, Essh].
    intros _. cbn. split; [reflexivity|]. split; [reflexivity|].
    intros args [Hin|[]]. discriminate Hin.
  - split.
    { intros Hyes. apply startsWith_spec in Hyes. congruence. }
    intros _.
    match goal with
    | |- context [runScript ?client ?s ?w0] =>
        destruct (runScript client s w0) as [[[[]|t] w2] e2]
    end; cbn; eauto.
Qed.

End Clone.

(** ** Closed examples in the concrete world *)

Section Examples.
Import useGit Concrete.

(** The url of an SSH remote. *)
Lemma ssh_url_uninitialized :
  (exists rest, "git@github.com:a/b.git" = "git@" +:+ rest) /\
  gitClone unmounted "git@github.com:a/b.git" w0 =
    (Throw (ThrowValue (VStr "Webcontainer not initialized")), w0, []) /\
  result (gitClone unmounted "git@github.com:a/b.git" w0) <>
    Throw (ThrowError (newError sshMessage)).
Proof.
  split; [exists "github.com:a/b.git"; reflexivity|].
  split; [reflexivity|]. cbn. discriminate.
Qed.

Lemma gitClone_not_initialized_witness :
  (webcontainer (@unmounted X) = None \/ fsState (@unmounted X) = None \/
   ready (@unmounted X) = false) /\
  gitClone unmounted cloneUrl w0 =
    (Throw (ThrowValue (VStr "Webcontainer not initialized")), w0, []).
Proof.
  split; [left; reflexivity|].
  apply gitClone_not_initialized. left. reflexivity.
Defined.


(** C3, for a repository with a file [__proto__] at its root. The clone
    writes [README.md] and [__proto__] through [writeFile] of the client and
    succeeds; the [data] it returns has the entry of [README.md] alone. The
    path [__proto__], written during the clone, is missing from it: one
    entry fewer than the paths written. *)
Theorem gitClone_proto_dropped :
  let run := gitClone (svc := protoRepo) (mounted container) cloneUrl w0 in
  (written container (events run)).*1 = ["README.md"; "__proto__"] /\
  result run =
    Ok (mkResult "/home/project" {[ "README.md" := mkEntry (VStr "# r") VUndefined ]}) /\
  (forall res, result run = Ok res ->
     result_workdir res = "/home/project" /\
     dom (result_data res) = {[ "README.md" ]} /\
     result_data res !! "__proto__" = None).
Proof.
  cbv zeta.
  assert (Hrun : result (gitClone (svc := protoRepo) (mounted container) cloneUrl w0) =
    Ok (mkResult "/home/project" {[ "README.md" := mkEntry (VStr "# r") VUndefined ]}))
    by (vm_compute; reflexivity).
  split; [vm_compute; reflexivity|]. split; [exact Hrun|].
  intros res Hres. rewrite Hrun in Hres. injection Hres as <-.
  cbn [result_workdir result_data]. split; [reflexivity|].
  split; [apply dom_singleton_L|reflexivity].
Qed.

Lemma gitClone_data_example :
  gitClone (mounted container) cloneUrl w0 =
    (Ok cloned, final (gitClone (mounted container) cloneUrl w0),
     events (gitClone (mounted container) cloneUrl w0)) /\
  result_workdir cloned = workdir container /\
  (forall k, k <> "__proto__" ->
     result_data cloned !! k =
     lastWrite k (written container (events (gitClone (mounted container) cloneUrl w0)))).
Proof.
  assert (Hrun : gitClone (mounted container) cloneUrl w0 =
    (Ok cloned, final (gitClone (mounted container) cloneUrl w0),
     events (gitClone (mounted container) cloneUrl w0)))
    by (vm_compute; reflexivity).
  split; [exact Hrun|].
  destruct (gitClone_data (mounted container) container cloneUrl w0 _ cloned _
              eq_refl eq_refl Hrun) as (Hwd & _ & Hdata & _).
  split; assumption.
Defined.

Lemma gitClone_ssh_or_clone_witness :
  (result (gitClone (mounted container) "git@github.com:a/b.git" w0) =
     Throw (ThrowError (newError sshMessage)) /\
   events (gitClone (mounted container) "git@github.com:a/b.git" w0) =
     [ToastError sshMessage]) /\
  exists rest,
    events (gitClone (mounted container) cloneUrl w0) =
      GitClone (mkCloneArgs "/home/project" cloneUrl 1 true
                  "https://cors.isomorphic-git.org") :: rest.
Proof.
  split.
  - destruct (gitClone_ssh_or_clone (mounted container) container (getFs container)
                "git@github.com:a/b.git" w0 eq_refl eq_refl eq_refl) as [Hssh _].
    destruct Hssh as (Hr & He & _); [exists "github.com:a/b.git"; reflexivity|].
    split; assumption.
  - destruct (gitClone_ssh_or_clone (mounted container) container (getFs container)
                cloneUrl w0 eq_refl eq_refl eq_refl) as [_ Hclone].
    apply Hclone. intros Hssh. apply startsWith_spec in Hssh. discriminate Hssh.
Defined.


Lemma branchForm_allowed : pushAllowed branchForm.
Proof.
  unfold pushAllowed, branchForm. simpl.
  split; [discriminate|]. split; [discriminate|]. split; [discriminate|].
  split; [left; exists "0123456789"; reflexivity|].
  intros _. split; [discriminate|]. split.
  - intros c Hc Hin.
    repeat (destruct Hc as [<-|Hc];
            [repeat (destruct Hin as [Hin|Hin]; [discriminate Hin|]); exact Hin|]).
    exact Hc.
  - intros Hdot. apply endsWith_spec in Hdot. discriminate Hdot.
Qed.

Lemma emptyForm_refused : ~ pushAllowed emptyForm.
Proof. intros (_ & _ & Htoken & _). apply Htoken. reflexivity. Qed.

Lemma handleGitHubPush_gate_witness :
  (exists args,
     In (Workbench.PushToGitHub args)
        (events (Workbench.handleGitHubPush acceptingStore branchForm tt))) /\
  (exists msg,
     events (Workbench.handleGitHubPush acceptingStore emptyForm tt) =
       [Workbench.ToastError msg] /\
     final (Workbench.handleGitHubPush acceptingStore emptyForm tt) = tt /\
     result (Workbench.handleGitHubPush acceptingStore emptyForm tt) = Ok tt).
Proof.
  split.
  - apply (handleGitHubPush_gate acceptingStore branchForm tt). exact branchForm_allowed.
  - apply (handleGitHubPush_gate acceptingStore emptyForm tt). exact emptyForm_refused.
Defined.

(** C10, at the path ['constructor']. The documents of [editor] have no
    document under ['constructor'], yet [updateFile('constructor', 'x')]
    does not leave the stores as they are: [documents['constructor']] is the
    function [Object] every plain object inherits, which is truthy and has no
    [value], so the content counts as changed, a version is added to the
    history and the object [{ value: 'x' }] is stored under the path. *)
Theorem updateFile_inherited_name :
  let s' := EditorStore.updateFile addVersion isExistingFile "constructor" "x" editor in
  EditorStore.documents editor !! "constructor" = None /\
  s' <> editor /\
  EditorStore.versionHistoryStore s' = [("constructor", "x", "Modified in editor")] /\
  EditorStore.documents s' !! "constructor" =
    Some (EditorStore.mkObject (Some "x") None None None).
Proof.
  cbv zeta. split; [reflexivity|]. split; [|split; [reflexivity|reflexivity]].
  intros Hsame. apply (f_equal EditorStore.versionHistoryStore) in Hsame.
  discriminate Hsame.
Qed.

Lemma updateFile_frame_example :
  EditorStore.updateFile addVersion isExistingFile "src/b.ts" "let b = 2" editor = editor /\
  EditorStore.updateFile addVersion isExistingFile "src/a.ts" "let a = 1" editor = editor /\
  (EditorStore.unsavedFiles
     (EditorStore.updateFile addVersion isExistingFile "src/a.ts" "let a = 2" editor) =
     EditorStore.unsavedFiles editor /\
   EditorStore.modifiedFiles
     (EditorStore.updateFile addVersion isExistingFile "src/a.ts" "let a = 2" editor) =
     EditorStore.modifiedFiles editor).
Proof.
  split; [|split].
  - apply (updateFile_frame addVersion isExistingFile "src/b.ts" "let b = 2" editor).
    left. split; [reflexivity|]. apply (bool_decide_eq_false_1 _). reflexivity.
  - apply (updateFile_frame addVersion isExistingFile "src/a.ts" "let a = 1" editor).
    right. eexists. split; reflexivity.
  - apply (updateFile_frame addVersion isExistingFile "src/a.ts" "let a = 2" editor).
    reflexivity.
Defined.

End Examples.

(** * Further properties *)

(** ** Splitting and joining paths *)

Section Paths.
Import Js pathUtils.

Lemma noSlash_cons (c : ascii) (s : string) :
  noSlash (String c s) <-> c <> slash /\ noSlash s.
Proof.
  unfold noSlash. simpl. split.
  - intros H. inversion H; subst. auto.
  - intros [Hc Hs]. constructor; assumption.
Qed.

Lemma noSlash_nil : noSlash "".
Proof. unfold noSlash. simpl. constructor. Qed.

Lemma allSlash_nil : allSlash "".
Proof. unfold allSlash. simpl. constructor. Qed.

Lemma split_not_nil (s : string) : split slash s <> [].
Proof.
  destruct s as [|c s]; simpl; [discriminate|].
  destruct (Ascii.eqb c slash); [discriminate|].
  destruct (split slash s); discriminate.
Qed.

Lemma split_noSlash (s : string) : noSlash s -> split slash s = [s].
Proof.
  induction s as [|c s IH]; intros Hs; [reflexivity|].
  apply noSlash_cons in Hs as [Hc Hs]. simpl.
  apply Ascii.eqb_neq in Hc. rewrite Hc, (IH Hs). reflexivity.
Qed.

Lemma split_app_slash (a b : string) :
  split slash (a +:+ String slash b) = split slash a ++ split slash b.
Proof.
  induction a as [|c a IH].
  - rewrite append_nil. simpl. reflexivity.
  - rewrite append_cons. simpl. rewrite IH.
    destruct (Ascii.eqb c slash); [reflexivity|].
    destruct (split slash a) as [|h t] eqn:Ha; [|reflexivity].
    exfalso. exact (split_not_nil a Ha).
Qed.

Lemma join_cons_cons (sep p q : string) (rest : list string) :
  join sep (p :: q :: rest) = p +:+ sep +:+ join sep (q :: rest).
Proof. reflexivity. Qed.

Lemma join_split (s : string) : join "/" (split slash s) = s.
Proof.
  induction s as [|c s IH]; [reflexivity|]. simpl.
  destruct (Ascii.eqb c slash) eqn:Hc.
  - apply Ascii.eqb_eq in Hc. subst c.
    destruct (split slash s) as [|h t] eqn:Hs; [exfalso; exact (split_not_nil s Hs)|].
    rewrite join_cons_cons, IH. reflexivity.
  - destruct (split slash s) as [|h [|q t]] eqn:Hs.
    + exfalso. exact (split_not_nil s Hs).
    + simpl in *. congruence.
    + rewrite join_cons_cons in *. rewrite append_cons, IH. reflexivity.
Qed.

Lemma split_join (parts : list string) :
  parts <> [] -> Forall noSlash parts -> split slash (join "/" parts) = parts.
Proof.
  induction parts as [|p [|q rest] IH]; intros Hne Hall; [congruence| |].
  - simpl. apply split_noSlash. apply (Forall_inv Hall).
  - rewrite join_cons_cons.
    change ("/" +:+ join "/" (q :: rest)) with (String slash (join "/" (q :: rest))).
    rewrite split_app_slash, IH; [|discriminate|exact (Forall_inv_tail Hall)].
    rewrite split_noSlash by exact (Forall_inv Hall). reflexivity.
Qed.

Lemma isEmpty_app_r (a b : string) : b <> "" -> isEmpty (a +:+ b) = false.
Proof.
  intros Hb. destruct a; [|reflexivity]. rewrite append_nil. apply isEmpty_false, Hb.
Qed.

Lemma isEmpty_app_l (a b : string) : a <> "" -> isEmpty (a +:+ b) = false.
Proof. intros Ha. destruct a; [congruence|reflexivity]. Qed.

Lemma strip_noSlash_allSlash (b sl : string) :
  noSlash b -> allSlash sl -> stripTrailing slash (b +:+ sl) = b.
Proof.
  intros Hb Hsl. induction b as [|c b IH].
  - rewrite append_nil. induction sl as [|c sl IHsl]; [reflexivity|].
    inversion Hsl as [|? ? Hc Hrest]; subst. cbn [stripTrailing].
    rewrite (IHsl Hrest), Ascii.eqb_refl. reflexivity.
  - apply noSlash_cons in Hb as [Hc Hb]. rewrite append_cons. cbn [stripTrailing].
    rewrite (IH Hb). apply Ascii.eqb_neq in Hc. rewrite Hc. reflexivity.
Qed.

Lemma strip_noSlash (b : string) : noSlash b -> stripTrailing slash b = b.
Proof.
  intros Hb. rewrite <- (append_empty_r b) at 1.
  apply strip_noSlash_allSlash; [exact Hb | exact allSlash_nil].
Qed.

Lemma strip_app (a x : string) :
  isEmpty (stripTrailing slash x) = false ->
  stripTrailing slash (a +:+ x) = a +:+ stripTrailing slash x.
Proof.
  intros Hx. induction a as [|c a IH]; [reflexivity|].
  rewrite !append_cons. cbn [stripTrailing]. rewrite IH.
  rewrite isEmpty_app_r by (apply isEmpty_false; exact Hx).
  rewrite andb_false_r. reflexivity.
Qed.

Lemma includes_app_slash (a b : string) : includes (a +:+ String slash b) "/" = true.
Proof.
  induction a as [|c a IH].
  - reflexivity.
  - rewrite append_cons. cbn [includes]. rewrite IH. apply orb_true_r.
Qed.

Lemma includes_noSlash (s : string) : noSlash s -> includes s "/" = false.
Proof.
  induction s as [|c s IH]; intros Hs; [reflexivity|].
  apply noSlash_cons in Hs as [Hc Hs]. cbn [includes startsWith].
  rewrite (IH Hs).
  destruct (Ascii.eqb_spec "/"%char c) as [E|E]; [|reflexivity].
  exfalso. apply Hc. symmetry. exact E.
Qed.

Lemma init_snoc {A} (l : list A) (x : A) : init (l ++ [x]) = l.
Proof. apply removelast_last. Qed.

Lemma pop_snoc {A} (l : list A) (x : A) : pop (l ++ [x]) = Some x.
Proof. unfold pop. rewrite List.map_app. apply last_last. Qed.

Lemma strip_join (d b sl : string) :
  b <> "" -> noSlash b -> allSlash sl ->
  stripTrailing slash (d +:+ "/" +:+ b +:+ sl) = d +:+ "/" +:+ b.
Proof.
  intros Hb Hnb Hsl.
  rewrite <- (append_assoc d "/" (b +:+ sl)). rewrite strip_app.
  - rewrite strip_noSlash_allSlash by assumption. apply append_assoc.
  - rewrite strip_noSlash_allSlash by assumption. apply isEmpty_false, Hb.
Qed.

Lemma split_last_segment (d b : string) :
  noSlash b -> split slash (d +:+ "/" +:+ b) = split slash d ++ [b].
Proof.
  intros Hnb. change ("/" +:+ b) with (String slash b).
  rewrite split_app_slash, (split_noSlash b) by assumption. reflexivity.
Qed.

Lemma dirname_join (d b sl : string) :
  d <> "" -> b <> "" -> noSlash b -> allSlash sl ->
  dirname (d +:+ "/" +:+ b +:+ sl) = d.
Proof.
  intros Hd Hb Hnb Hsl. unfold dirname.
  rewrite strip_join, split_last_segment, init_snoc, join_split by assumption.
  rewrite isEmpty_app_l by exact Hd.
  change ("/" +:+ b +:+ sl) with (String slash (b +:+ sl)).
  rewrite includes_app_slash. apply isEmpty_false in Hd. rewrite Hd. reflexivity.
Qed.

Lemma basename_join (d b sl : string) :
  b <> "" -> noSlash b -> allSlash sl ->
  basename (d +:+ "/" +:+ b +:+ sl) None = b.
Proof.
  intros Hb Hnb Hsl. unfold basename.
  rewrite strip_join, split_last_segment, pop_snoc by assumption. reflexivity.
Qed.

(** X1. A path [d/b] followed by any number of slashes, with a non-empty
    directory part [d] and a non-empty last segment [b], is taken apart into
    exactly these two: [dirname] gives [d] and [basename] gives [b]. *)
Theorem dirname_basename_join (d b sl : string) :
  d <> "" -> b <> "" -> noSlash b -> allSlash sl ->
  dirname (d +:+ "/" +:+ b +:+ sl) = d /\
  basename (d +:+ "/" +:+ b +:+ sl) None = b.
Proof.
  intros Hd Hb Hnb Hsl. split.
  - apply dirname_join; assumption.
  - apply basename_join; assumption.
Qed.

Lemma bare_name (n : string) :
  noSlash n -> dirname n = "." /\ basename n None = n.
Proof.
  intros Hn. unfold dirname, basename.
  rewrite includes_noSlash by exact Hn.
  rewrite strip_noSlash, split_noSlash by assumption.
  rewrite orb_true_r. auto.
Qed.

Lemma bare_name_slashes (n sl : string) :
  noSlash n -> sl <> "" -> allSlash sl ->
  dirname (n +:+ sl) = "/" /\ basename (n +:+ sl) None = n.
Proof.
  intros Hn Hne Hsl. unfold dirname, basename.
  rewrite strip_noSlash_allSlash, split_noSlash by assumption.
  rewrite isEmpty_app_r by exact Hne.
  destruct sl as [|c sl]; [congruence|].
  inversion Hsl as [|? ? Hc Hrest]; subst c.
  rewrite includes_app_slash. auto.
Qed.

(** X2. A bare name (no slash in it) lives in ['.']: [dirname] is ['.'] and
    [basename] is the name itself; when such a name is followed by slashes,
    [basename] is still the name but [dirname] is the root ['/']. *)
Theorem dirname_basename_bare (n sl : string) :
  noSlash n ->
  (dirname n = "." /\ basename n None = n) /\
  (sl <> "" -> allSlash sl ->
   dirname (n +:+ sl) = "/" /\ basename (n +:+ sl) None = n).
Proof.
  intros Hn. split.
  - apply bare_name, Hn.
  - intros Hne Hsl. apply bare_name_slashes; assumption.
Qed.

Lemma substring_prefix (a b : string) :
  String.substring 0 (String.length a) (a +:+ b) = a.
Proof.
  induction a as [|c a IH].
  - rewrite append_nil. destruct b; reflexivity.
  - rewrite append_cons. simpl. rewrite IH. reflexivity.
Qed.

Lemma string_length_app (a b : string) :
  String.length (a +:+ b) = String.length a + String.length b.
Proof.
  induction a as [|c a IH]; [reflexivity|]. rewrite append_cons. simpl. rewrite IH. reflexivity.
Qed.

(** X3. With an extension [ext], [basename] drops it from a last segment
    that ends with it; an empty extension, or one the segment does not end
    with, changes nothing. *)
Theorem basename_ext (p stem ext : string) :
  (ext <> "" -> basename p None = stem +:+ ext -> basename p (Some ext) = stem) /\
  basename p (Some "") = basename p None /\
  (~ (exists front, basename p None = front +:+ ext) ->
   basename p (Some ext) = basename p None).
Proof.
  unfold basename. split; [|split].
  - intros Hext Hbase. rewrite Hbase.
    assert (Hend : endsWith (stem +:+ ext) ext = true) by (apply endsWith_spec; eauto).
    rewrite Hend. unfold truthy. apply isEmpty_false in Hext. rewrite Hext. cbn [negb andb].
    unfold dropLast. rewrite string_length_app, Nat.add_sub. apply substring_prefix.
  - reflexivity.
  - intros Hno.
    destruct (endsWith _ ext) eqn:Hend; [|rewrite andb_false_r; reflexivity].
    exfalso. apply Hno. apply endsWith_spec. exact Hend.
Qed.

Lemma split_strip (s : string) :
  exists k, split slash s = split slash (stripTrailing slash s) ++ replicate k "".
Proof.
  induction s as [|c s [k IH]].
  - exists 0. reflexivity.
  - cbn [stripTrailing split].
    destruct (Ascii.eqb c slash) eqn:Hc.
    + destruct (isEmpty (stripTrailing slash s)) eqn:He; cbn [andb].
      * apply isEmpty_true in He. rewrite He in IH. exists (S k). rewrite IH. reflexivity.
      * exists k. cbn [split]. rewrite Hc, IH. reflexivity.
    + cbn [andb split]. rewrite Hc, IH. exists k.
      destruct (split slash (stripTrailing slash s)) as [|h t] eqn:Hs;
        [exfalso; exact (split_not_nil _ Hs)|]. reflexivity.
Qed.

Lemma filter_truthy_replicate (k : nat) : List.filter truthy (replicate k "") = [].
Proof. induction k; [reflexivity|exact IHk]. Qed.

Lemma normalize_nostrip (s : string) :
  normalizePathParts s = List.filter truthy (split slash s).
Proof.
  unfold normalizePathParts. destruct (split_strip s) as [k ->].
  rewrite List.filter_app, filter_truthy_replicate, app_nil_r. reflexivity.
Qed.

Lemma normalize_app_slash (a b : string) :
  normalizePathParts (a +:+ String slash b) = normalizePathParts a ++ normalizePathParts b.
Proof. rewrite !normalize_nostrip, split_app_slash. apply List.filter_app. Qed.

Lemma normalize_allSlash (sl : string) : allSlash sl -> normalizePathParts sl = [].
Proof.
  rewrite normalize_nostrip. induction sl as [|c sl IH]; intros Hsl; [reflexivity|].
  inversion Hsl as [|? ? Hc Hrest]; subst. cbn [split]. rewrite Ascii.eqb_refl.
  exact (IH Hrest).
Qed.

Lemma normalize_app_allSlash (s sl : string) :
  allSlash sl -> normalizePathParts (s +:+ sl) = normalizePathParts s.
Proof.
  intros Hsl. destruct sl as [|c sl]; [rewrite append_empty_r; reflexivity|].
  inversion Hsl as [|? ? Hc Hrest]; subst.
  rewrite normalize_app_slash, (normalize_allSlash sl Hrest). apply app_nil_r.
Qed.

(** What [relative] computes from the two lists of parts. *)
Lemma relative_parts (from to : string) :
  from <> "" -> to <> "" ->
  relative from to =
    let fromParts := normalizePathParts from in
    let toParts := normalizePathParts to in
    let commonLength :=
      commonLoop fromParts toParts 0 (Nat.min (length fromParts) (length toParts)) 0 in
    let relativeParts :=
      replicate (length fromParts - commonLength) ".." ++ drop commonLength toParts in
    if (length relativeParts =? 0)%nat then "." else join "/" relativeParts.
Proof.
  intros Hf Ht. unfold relative.
  apply isEmpty_false in Hf, Ht. rewrite Hf, Ht. reflexivity.
Qed.

Lemma relative_trailing (from to sl sl' : string) :
  from <> "" -> to <> "" -> allSlash sl -> allSlash sl' ->
  relative (from +:+ sl) (to +:+ sl') = relative from to.
Proof.
  intros Hf Ht Hsl Hsl'.
  rewrite !relative_parts; try assumption;
    try (apply isEmpty_false, isEmpty_app_l; assumption).
  rewrite !normalize_app_allSlash by assumption. reflexivity.
Qed.

Lemma relative_doubled (from a b : string) :
  relative from (a +:+ "//" +:+ b) = relative from (a +:+ "/" +:+ b).
Proof.
  destruct from as [|c from]; [reflexivity|].
  rewrite !relative_parts; try discriminate;
    try (apply isEmpty_false, isEmpty_app_r; discriminate).
  change (a +:+ "//" +:+ b) with (a +:+ String slash (String slash b)).
  change (a +:+ "/" +:+ b) with (a +:+ String slash b).
  rewrite !normalize_app_slash.
  change (String slash b) with ("" +:+ String slash b) at 1.
  rewrite normalize_app_slash. reflexivity.
Qed.

(** X4. [relative] does not see trailing slashes on either argument, nor a
    doubled slash inside the target. *)
Theorem relative_slashes (from to sl sl' a b : string) :
  from <> "" -> to <> "" -> allSlash sl -> allSlash sl' ->
  relative (from +:+ sl) (to +:+ sl') = relative from to /\
  relative from (a +:+ "//" +:+ b) = relative from (a +:+ "/" +:+ b).
Proof.
  intros Hf Ht Hsl Hsl'. split.
  - apply relative_trailing; assumption.
  - apply relative_doubled.
Qed.

Lemma commonLoop_prefix (l rest : list string) :
  forall fuel i c, i + fuel <= length l -> commonLoop l (l ++ rest) i fuel c = c + fuel.
Proof.
  induction fuel as [|fuel IH]; intros i c Hle; simpl.
  - lia.
  - destruct (lookup_lt_is_Some_2 l i ltac:(lia)) as [a Ha].
    rewrite lookup_app_l, Ha, String.eqb_refl, IH by lia. lia.
Qed.

Lemma split_parts_noSlash (s : string) : Forall noSlash (split slash s).
Proof.
  induction s as [|c s IH]; cbn [split].
  - constructor; [exact noSlash_nil|constructor].
  - destruct (Ascii.eqb c slash) eqn:Hc.
    + constructor; [exact noSlash_nil|exact IH].
    + destruct (split slash s) as [|h t]; [constructor; [|constructor]|].
      * apply noSlash_cons. split; [apply Ascii.eqb_neq, Hc|exact noSlash_nil].
      * inversion IH; subst. constructor; [|assumption].
        apply noSlash_cons. split; [apply Ascii.eqb_neq, Hc|assumption].
Qed.

Lemma normalize_segments (s : string) : Forall segment (normalizePathParts s).
Proof.
  rewrite normalize_nostrip.
  pose proof (split_parts_noSlash s) as Hall.
  induction Hall as [|p l Hp Hl IH]; [constructor|]. cbn [List.filter].
  destruct (truthy p) eqn:Ht; [|exact IH].
  constructor; [|exact IH]. split; [|exact Hp].
  unfold truthy in Ht. apply negb_true_iff, isEmpty_false in Ht. exact Ht.
Qed.

Lemma filter_truthy_segments (parts : list string) :
  Forall segment parts -> List.filter truthy parts = parts.
Proof.
  induction 1 as [|p l [Hp _] Hl IH]; [reflexivity|]. cbn [List.filter].
  assert (Ht : truthy p = true)
    by (unfold truthy; apply isEmpty_false in Hp; rewrite Hp; reflexivity).
  rewrite Ht, IH. reflexivity.
Qed.

Lemma segments_noSlash (parts : list string) : Forall segment parts -> Forall noSlash parts.
Proof. intros Hall. eapply Forall_impl; [exact Hall|]. intros p [_ Hp]. exact Hp. Qed.

Lemma normalize_join (parts : list string) :
  Forall segment parts -> normalizePathParts (join "/" parts) = parts.
Proof.
  intros Hall. destruct parts as [|p rest]; [reflexivity|].
  rewrite normalize_nostrip, split_join;
    [apply filter_truthy_segments, Hall|discriminate|apply segments_noSlash, Hall].
Qed.

Lemma relative_below (from : string) (below : list string) :
  from <> "" -> Forall segment below ->
  forall to, to <> "" -> normalizePathParts to = normalizePathParts from ++ below ->
  relative from to = match below with [] => "." | p :: rest => join "/" (p :: rest) end.
Proof.
  intros Hf Hall to Ht Hparts. rewrite relative_parts by assumption. cbv zeta.
  rewrite Hparts, (length_app (normalizePathParts from) below), Nat.min_l by lia.
  rewrite commonLoop_prefix by lia. cbn [Nat.add].
  rewrite Nat.sub_diag, drop_app_length. cbn [replicate app].
  destruct below; reflexivity.
Qed.

Lemma relative_under_sub (from sub : string) :
  from <> "" ->
  relative from (from +:+ "/" +:+ sub) =
    match normalizePathParts sub with
    | [] => "."
    | below => join "/" below
    end.
Proof.
  intros Hf. apply (relative_below from (normalizePathParts sub)).
  - exact Hf.
  - apply normalize_segments.
  - apply isEmpty_false, isEmpty_app_l, Hf.
  - change ("/" +:+ sub) with (String slash sub). apply normalize_app_slash.
Qed.

Lemma relative_under_parts (from : string) (parts : list string) :
  from <> "" -> parts <> [] -> Forall segment parts ->
  relative from (from +:+ "/" +:+ join "/" parts) = join "/" parts.
Proof.
  intros Hf Hne Hall. rewrite relative_under_sub, normalize_join by assumption.
  destruct parts; [congruence|reflexivity].
Qed.

(** X5. A path below [from] translates to the path below it: for a
    non-empty [from], [relative(from, from + '/' + sub)] is [sub] with its
    empty segments dropped (['.'] when nothing is left); a [sub] that is
    already a list of segments joined by slashes comes back unchanged. *)
Theorem relative_under (from sub : string) (parts : list string) :
  from <> "" ->
  relative from (from +:+ "/" +:+ sub) =
    match normalizePathParts sub with
    | [] => "."
    | below => join "/" below
    end /\
  (parts <> [] -> Forall segment parts ->
   relative from (from +:+ "/" +:+ join "/" parts) = join "/" parts).
Proof.
  intros Hf. split.
  - apply relative_under_sub, Hf.
  - intros Hne Hall. apply relative_under_parts; assumption.
Qed.

Lemma relative_segments (from to : string) :
  Forall segment (split slash (relative from to)).
Proof.
  unfold relative. destruct (isEmpty from || isEmpty to).
  { constructor; [|constructor]. split; [discriminate|].
    apply noSlash_cons. split; [discriminate|exact noSlash_nil]. }
  cbv zeta.
  set (parts := replicate _ ".." ++ drop _ (normalizePathParts to)).
  assert (Hparts : Forall segment parts).
  { apply Forall_app. split.
    - apply Forall_replicate. split; [discriminate|].
      apply noSlash_cons. split; [discriminate|].
      apply noSlash_cons. split; [discriminate|exact noSlash_nil].
    - apply Forall_drop, normalize_segments. }
  destruct (length parts =? 0)%nat eqn:Hlen.
  { constructor; [|constructor]. split; [discriminate|].
    apply noSlash_cons. split; [discriminate|exact noSlash_nil]. }
  rewrite split_join; [exact Hparts| |apply segments_noSlash, Hparts].
  intros ->. discriminate Hlen.
Qed.

(** X6. What [relative] returns is never empty and never absolute: cut at
    the slashes, every segment of it is non-empty, so it has no leading, no
    trailing and no doubled slash. *)
Theorem relative_normal (from to : string) :
  relative from to <> "" /\
  Forall segment (split slash (relative from to)) /\
  startsWith (relative from to) "/" = false.
Proof.
  pose proof (relative_segments from to) as Hseg.
  split; [|split; [exact Hseg|]].
  - intros Hempty. rewrite Hempty in Hseg. inversion Hseg as [|? ? [Hne _] _]; subst.
    congruence.
  - destruct (startsWith _ "/") eqn:Hstart; [|reflexivity].
    apply startsWith_spec in Hstart as [rest Hrest]. rewrite Hrest in Hseg.
    change ("/" +:+ rest) with ("" +:+ String slash rest) in Hseg.
    rewrite split_app_slash in Hseg. inversion Hseg as [|? ? [Hne _] _]; subst.
    congruence.
Qed.

End Paths.

(** ** What the client hands to the container *)

Section Confined.
Import Js pathUtils useGit.
Context {X : Type} {svc : Services X}.

Lemma join_snoc (parts : list string) (b : string) :
  parts <> [] -> join "/" (parts ++ [b]) = join "/" parts +:+ "/" +:+ b.
Proof.
  induction parts as [|p [|q rest] IH]; intros Hne; [congruence|reflexivity|].
  change ((p :: q :: rest) ++ [b]) with (p :: q :: (rest ++ [b])).
  rewrite !join_cons_cons.
  change (q :: rest ++ [b]) with ((q :: rest) ++ [b]).
  rewrite IH by discriminate. rewrite !append_assoc. reflexivity.
Qed.

Lemma normalPath_join (parts : list string) :
  parts <> [] -> Forall segment parts -> normalPath (join "/" parts).
Proof.
  intros Hne Hall. unfold normalPath.
  rewrite split_join by (assumption || apply segments_noSlash, Hall).
  split; [|exact Hall]. intros Hj.
  pose proof (split_join parts Hne (segments_noSlash _ Hall)) as Hs.
  rewrite Hj in Hs. cbn in Hs. subst parts.
  inversion Hall as [|? ? [Hx _] _]; subst. congruence.
Qed.

Lemma normalPath_dot : normalPath ".".
Proof.
  split; [discriminate|]. constructor; [|constructor]. split; [discriminate|].
  apply noSlash_cons. split; [discriminate|exact noSlash_nil].
Qed.

Lemma normalPath_relative (from to : string) : normalPath (relative from to).
Proof.
  pose proof (relative_segments from to) as Hseg. split; [|exact Hseg].
  intros Hempty. rewrite Hempty in Hseg. inversion Hseg as [|? ? [Hne _] _]; subst.
  congruence.
Qed.

(** [dirname] and [basename] of a normal path given by its segments. *)
Lemma dirname_basename_segments (dirs : list string) (n : string) :
  Forall segment dirs -> segment n ->
  dirname (join "/" (dirs ++ [n])) = match dirs with [] => "." | _ => join "/" dirs end /\
  basename (join "/" (dirs ++ [n])) None = n.
Proof.
  intros Hdirs [Hn Hns]. destruct dirs as [|d dirs].
  - exact (bare_name n Hns).
  - rewrite join_snoc by discriminate.
    assert (Hd : join "/" (d :: dirs) <> "")
      by (apply (normalPath_join (d :: dirs)); [discriminate|exact Hdirs]).
    pose proof (dirname_join _ n "" Hd Hn Hns allSlash_nil) as Hj.
    pose proof (basename_join (join "/" (d :: dirs)) n "" Hn Hns allSlash_nil) as Hb.
    rewrite append_empty_r in Hj, Hb. split; assumption.
Qed.

Lemma normalPath_dirname (p : string) : normalPath p -> normalPath (dirname p).
Proof.
  intros [Hne Hseg]. rewrite <- (join_split p).
  destruct (exists_last (split_not_nil p)) as (dirs & n & Hsplit).
  rewrite Hsplit in *. apply Forall_app in Hseg as [Hdirs Hn].
  apply Forall_inv in Hn.
  rewrite (proj1 (dirname_basename_segments dirs n Hdirs Hn)).
  destruct dirs as [|d dirs]; [exact normalPath_dot|].
  apply normalPath_join; [discriminate|exact Hdirs].
Qed.

Section Always.
Variable P : event -> Prop.

Lemma always_ret {A} (a : A) : always (X := X) P (ret a).
Proof. intros w. constructor. Qed.

Lemma always_throw {A} (t : thrown) : always (X := X) P (throw (A := A) t).
Proof. intros w. constructor. Qed.

Lemma always_emit (e : event) : P e -> always (X := X) P (emit e).
Proof. intros He w. constructor; [exact He|constructor]. Qed.

Lemma always_await {A} (e : event) (op : X -> outcome A * X) :
  P e -> always P (await e op).
Proof.
  intros He w. unfold await, events. destruct (op (outside w)) as [r x].
  constructor; [exact He|constructor].
Qed.

Lemma always_ask {A} (e : event) (op : X -> A * X) : P e -> always P (ask e op).
Proof.
  intros He w. unfold ask, events. destruct (op (outside w)) as [r x].
  constructor; [exact He|constructor].
Qed.

Lemma always_record_set (k : string) (entry : fileEntry) :
  always (X := X) P (record_set k entry).
Proof. intros w. constructor. Qed.

Lemma always_bind {A B} (m : Eff.M (world X) event A) (f : A -> Eff.M (world X) event B) :
  always P m -> (forall a, always P (f a)) -> always P (bind m f).
Proof.
  intros Hm Hf w. unfold bind. specialize (Hm w).
  destruct (m w) as [[[a|t] w1] e1]; [|exact Hm].
  specialize (Hf a w1). destruct (f a w1) as [[r w2] e2].
  unfold events in *. cbn [snd] in *. apply Forall_app. split; assumption.
Qed.

Lemma always_tryCatch {A} (m : Eff.M (world X) event A)
    (h : thrown -> Eff.M (world X) event A) :
  always P m -> (forall t, always P (h t)) -> always P (tryCatch m h).
Proof.
  intros Hm Hh w. unfold tryCatch. specialize (Hm w).
  destruct (m w) as [[[a|t] w1] e1]; [exact Hm|].
  specialize (Hh t w1). destruct (h t w1) as [[r w2] e2].
  unfold events in *. cbn [snd] in *. apply Forall_app. split; assumption.
Qed.

End Always.

Ltac always_steps :=
  repeat first
    [ apply always_ret
    | apply always_throw
    | apply always_record_set
    | apply always_bind; [|intros ?]
    | apply always_tryCatch; [|intros ?]
    | apply always_emit
    | apply always_await
    | apply always_ask
    | progress cbv zeta
    | match goal with
      | |- always _ (match ?t with _ => _ end) => destruct t
      end ].

Ltac unfold_client :=
  unfold runCallback, getFs, readFile, writeFile, mkdir, readdir, rm, rmdir,
    unlink, stat, lstat, readlink, symlink, chmod, onAuth, onAuthFailure,
    onAuthSuccess, member, console_log, toast_error.

Lemma callback_confined (webcontainer : WebContainer X) (c : callback) :
  always confined (runCallback (getFs webcontainer) c).
Proof.
  destruct c as [call|u|u a|u a]; [destruct call|..]; unfold_client; always_steps.
  all: intros q Hq; cbn in Hq;
    first [ discriminate Hq
          | injection Hq as <-;
            first [ apply normalPath_relative
                  | apply normalPath_dirname, normalPath_relative ] ].
Qed.

Lemma script_always (P : event -> Prop) (client : PromiseFsClient) :
  (forall c, P (Called c)) ->
  (forall c, always P (runCallback client c)) ->
  forall s, always P (runScript client s).
Proof.
  intros Hcalled Hcb s. induction s as [|t|c k IH]; intros w.
  - constructor.
  - constructor.
  - cbn [runScript]. specialize (Hcb c w).
    destruct (runCallback client c w) as [[r w1] e1].
    specialize (IH r w1). destruct (runScript client (k r) w1) as [[r' w2] e2].
    unfold events in *. cbn [snd] in *.
    constructor; [apply Hcalled|]. apply Forall_app. split; assumption.
Qed.

Lemma gitClone_always (P : event -> Prop) (h : hookState) (url : string) :
  (forall e, containerPath e = None -> (forall u a, e <> SaveGitAuth u a) ->
             (forall m, e <> Confirm m) -> (forall m, e <> Prompt m) -> P e) ->
  (forall client c, fsState h = Some client -> always P (runCallback client c)) ->
  always P (gitClone h url).
Proof.
  intros Hplain Hcb. unfold gitClone.
  destruct (webcontainer h) as [wc|]; [|apply always_throw].
  destruct (fsState h) as [client|]; [|apply always_throw].
  destruct (ready h); [|apply always_throw].
  apply always_bind; [intros w; constructor|intros _].
  apply always_tryCatch.
  - destruct (startsWith url "git@"); [apply always_throw|].
    apply always_bind; [|intros _].
    + intros w. unfold git_clone.
      assert (Hcalled : forall c, P (Called c))
        by (intros c; apply Hplain; [reflexivity|discriminate..]).
      match goal with
      | |- context [runScript client ?s w] =>
          pose proof (script_always P client Hcalled (fun c => Hcb client c eq_refl)
                        s w) as Hs;
          destruct (runScript client s w) as [[r w'] e]
      end.
      unfold events in *. cbn [snd] in *.
      constructor; [|exact Hs].
      apply Hplain; [reflexivity|discriminate..].
    + apply always_bind; [intros w; constructor|intros current]. apply always_ret.
  - intros t. apply always_bind; [|intros _; apply always_throw].
    apply always_emit. apply Hplain; [reflexivity|discriminate..].
Qed.

(** X7. The container is only ever addressed by relative paths in normal
    form: whatever method of the client is called with whatever path, and
    all through a clone run against the client, every call of the
    container's filesystem has a path that is not empty and has no empty
    segment (so no leading, trailing or doubled slash). *)
Theorem container_paths_normal (webcontainer : WebContainer X) :
  (forall call w, Forall confined (events (getFs webcontainer call w))) /\
  (forall h url w,
     fsState h = Some (getFs webcontainer) ->
     Forall confined (events (gitClone h url w))).
Proof.
  split.
  - intros call w.
    pose proof (callback_confined webcontainer (CallFs call) w) as Hc.
    unfold runCallback, bind, ret, events in *.
    destruct (getFs webcontainer call w) as [[[v|t] w1] e1]; cbn [snd] in *;
      [rewrite app_nil_r in Hc|]; exact Hc.
  - intros h url w Hfs. apply gitClone_always.
    + intros e He q Hq. congruence.
    + intros client c Hclient. rewrite Hfs in Hclient. injection Hclient as <-.
      apply callback_confined.
Qed.

(** ** What a clone does on the request of the library only *)

Lemma callback_on_request (webcontainer : WebContainer X) (c : callback) :
  always (fun e =>
            (forall u a, e = SaveGitAuth u a -> c = CallOnAuthSuccess u a) /\
            (forall m, e = Confirm m \/ e = Prompt m -> exists u, c = CallOnAuth u))
         (runCallback (getFs webcontainer) c).
Proof.
  destruct c as [call|u|u a|u a]; [destruct call|..]; unfold_client; always_steps.
  all: split;
    [ intros u' a' He; first [discriminate He | injection He as <- <-; reflexivity]
    | intros m [He|He]; first [discriminate He | eexists; reflexivity] ].
Qed.

Lemma after_cons (e first later : event) (evs : list event) :
  after first later evs -> after first later (e :: evs).
Proof. intros (pre & post & -> & Hin). exists (e :: pre), post. auto. Qed.

Lemma after_app_l (l : list event) (first later : event) (evs : list event) :
  after first later evs -> after first later (l ++ evs).
Proof. induction l; [auto|]. intros H. simpl. apply after_cons. auto. Qed.

Lemma after_app_r (l : list event) (first later : event) (evs : list event) :
  after first later evs -> after first later (evs ++ l).
Proof.
  intros (pre & post & -> & Hin). exists pre, (post ++ l).
  split; [rewrite <- app_assoc; reflexivity|]. apply in_or_app. auto.
Qed.

Lemma script_on_request (webcontainer : WebContainer X) (s : gitScript) :
  forall w,
    let evs := events (runScript (getFs webcontainer) s w) in
    (forall u a, In (SaveGitAuth u a) evs ->
       after (Called (CallOnAuthSuccess u a)) (SaveGitAuth u a) evs) /\
    (forall m later, later = Confirm m \/ later = Prompt m -> In later evs ->
       exists u, after (Called (CallOnAuth u)) later evs).
Proof.
  induction s as [|t|c k IH]; intros w; [split; intros; contradiction..|].
  cbn [runScript].
  pose proof (callback_on_request webcontainer c w) as Hcb.
  destruct (runCallback (getFs webcontainer) c w) as [[r w1] e1].
  specialize (IH r w1). destruct (runScript (getFs webcontainer) (k r) w1) as [[r' w2] e2].
  unfold events in *. cbn [snd] in *. cbv zeta in *. destruct IH as [IHs IHd].
  rewrite Forall_forall in Hcb. split.
  - intros u a [Hin|Hin]; [discriminate Hin|]. apply in_app_or in Hin as [Hin|Hin].
    + destruct (Hcb _ (proj2 (list_elem_of_In _ _) Hin)) as [Hc _].
      rewrite (Hc u a eq_refl). exists [], (e1 ++ e2). split; [reflexivity|].
      apply in_or_app. auto.
    + apply after_cons, after_app_l, IHs, Hin.
  - intros m later Hlater [Hin|Hin]; [destruct Hlater; subst; discriminate Hin|].
    apply in_app_or in Hin as [Hin|Hin].
    + destruct (Hcb _ (proj2 (list_elem_of_In _ _) Hin)) as [_ Hc].
      destruct (Hc m) as [u ->]; [destruct Hlater; subst; auto|].
      exists u, [], (e1 ++ e2). split; [reflexivity|]. apply in_or_app. auto.
    + destruct (IHd m later Hlater Hin) as [u Hu]. exists u.
      apply after_cons, after_app_l, Hu.
Qed.

(** The run of an initialized [gitClone], in terms of the run of the
    library on the emptied record. *)
Lemma gitClone_run (h : hookState) (webcontainer : WebContainer X)
    (client : PromiseFsClient) (url : string) (w : world X) :
  useGit.webcontainer h = Some webcontainer -> fsState h = Some client ->
  ready h = true ->
  let args := mkCloneArgs (workdir webcontainer) url 1 true
                "https://cors.isomorphic-git.org" in
  let w0 := mkWorld (outside w) ∅ in
  let run := runScript client (cloneBehaviour args (outside w)) w0 in
  gitClone h url w =
    if startsWith url "git@"
    then (Throw (ThrowError (newError sshMessage)), w0, [ToastError sshMessage])
    else match result run with
         | Ok _ =>
             (Ok (mkResult (workdir webcontainer) (copyEntries (fileData (final run)))),
              final run, GitClone args :: events run)
         | Throw t =>
             (Throw t, final run,
              GitClone args :: events run ++
                [ToastError (messageOr t "Failed to clone repository")])
         end.
Proof.
  intros Hwc Hfs Hready args w0 run. unfold gitClone. rewrite Hwc, Hfs, Hready.
  unfold bind, tryCatch, throw, ret, toast_error, emit, git_clone,
    record_reset, record_current.
  cbn [outside fileData].
  destruct (startsWith url "git@"); [reflexivity|].
  unfold result, final, events.
  match goal with
  | |- context [runScript client ?s ?w1] => change (runScript client s w1) with run
  end.
  destruct run as [[[[]|t] w2] e2]; cbn [fst snd app]; rewrite ?app_nil_r; reflexivity.
Qed.

(** X12. Credentials are saved, and the user is asked, on the request of
    the git library only: all through a clone run against the client,
    [saveGitAuth(url, auth)] happens only after the library has called
    [onAuthSuccess] with that url and auth, and a [confirm] or [prompt]
    dialog only after the library has called [onAuth]. *)
Theorem gitClone_on_request (h : hookState) (webcontainer : WebContainer X)
    (url : string) (w : world X) :
  fsState h = Some (getFs webcontainer) ->
  let evs := events (gitClone h url w) in
  (forall u a, In (SaveGitAuth u a) evs ->
     after (Called (CallOnAuthSuccess u a)) (SaveGitAuth u a) evs) /\
  (forall m later, later = Confirm m \/ later = Prompt m -> In later evs ->
     exists u, after (Called (CallOnAuth u)) later evs).
Proof.
  intros Hfs. cbv zeta.
  destruct (useGit.webcontainer h) as [wc|] eqn:Hwc;
    [|unfold gitClone; rewrite Hwc; split; intros; contradiction].
  destruct (ready h) eqn:Hready;
    [|unfold gitClone; rewrite Hwc, Hfs, Hready; split; intros; contradiction].
  rewrite (gitClone_run h wc _ url w Hwc Hfs Hready). cbv zeta.
  destruct (startsWith url "git@").
  { unfold events. cbn [snd]. split.
    - intros u a [Hin|[]]. discriminate Hin.
    - intros m later [->| ->] [Hin|[]]; discriminate Hin. }
  match goal with
  | |- context [runScript ?client ?s ?w0] =>
      pose proof (script_on_request webcontainer s w0) as [Hs Hd];
      destruct (runScript client s w0) as [[[[]|t] w2] e2]
  end; unfold result, final, events in *; cbn [fst snd] in *; split.
  - intros u a [Hin|Hin]; [discriminate Hin|]. apply after_cons, Hs, Hin.
  - intros m later Hl [Hin|Hin]; [destruct Hl; subst; discriminate Hin|].
    destruct (Hd m later Hl Hin) as [u Hu]. exists u. apply after_cons, Hu.
  - intros u a [Hin|Hin]; [discriminate Hin|].
    apply in_app_or in Hin as [Hin|[Hin|[]]]; [|discriminate Hin].
    apply after_cons, after_app_r, Hs, Hin.
  - intros m later Hl [Hin|Hin]; [destruct Hl; subst; discriminate Hin|].
    apply in_app_or in Hin as [Hin|[Hin|[]]]; [|destruct Hl; subst; discriminate Hin].
    destruct (Hd m later Hl Hin) as [u Hu]. exists u. apply after_cons, after_app_r, Hu.
Qed.

(** X13. A failure of an initialized [gitClone] is always shown and passed
    on unchanged. When [gitClone(url)] throws [t], its last interaction is
    the error toast, with the message of [t] when [t] is an [Error] and with
    ['Failed to clone repository'] when it is not; and [t] is the very value
    the body failed with: the SSH error for a url that starts with ['git@'],
    else what [git.clone], called on the emptied record, rejected with.
    Conversely, whatever [git.clone] rejects with is what [gitClone]
    throws. *)
Theorem gitClone_failure_toast (h : hookState) (webcontainer : WebContainer X)
    (client : PromiseFsClient) (url : string) (w : world X) (t : thrown) :
  useGit.webcontainer h = Some webcontainer -> fsState h = Some client ->
  ready h = true ->
  let args := mkCloneArgs (workdir webcontainer) url 1 true
                "https://cors.isomorphic-git.org" in
  let library := git_clone client args (mkWorld (outside w) ∅) in
  (result (gitClone h url w) = Throw t ->
   (exists before,
      events (gitClone h url w) =
        before ++ [ToastError (messageOr t "Failed to clone repository")]) /\
   (startsWith url "git@" = true -> t = ThrowError (newError sshMessage)) /\
   (startsWith url "git@" = false -> result library = Throw t)) /\
  (startsWith url "git@" = false -> result library = Throw t ->
   result (gitClone h url w) = Throw t).
Proof.
  intros Hwc Hfs Hready args library.
  rewrite (gitClone_run h webcontainer client url w Hwc Hfs Hready).
  cbv zeta. subst library. unfold git_clone. cbn [outside].
  destruct (startsWith url "git@").
  { split; [|discriminate]. unfold result, events. cbn [fst snd]. intros Ht.
    injection Ht as <-. split; [exists []; reflexivity|]. split; [reflexivity|discriminate]. }
  fold args.
  destruct (runScript client (cloneBehaviour args (outside w)) (mkWorld (outside w) ∅))
    as [[[[]|t'] w2] e2]; unfold result, events; cbn [fst snd]; split.
  - discriminate.
  - intros _ Ht. discriminate Ht.
  - intros Ht. injection Ht as <-. split; [|split; [discriminate|reflexivity]].
    eexists (GitClone _ :: e2). reflexivity.
  - intros _ Ht. injection Ht as ->. reflexivity.
Qed.

(** X14. Every initialized [gitClone] starts from an empty record, whatever
    its outcome: when it is over, failed or not, the [fileData] record holds
    under every path other than [__proto__] the pair of the latest write of
    this call to that path, and nothing for a path not written during the
    call, whatever the record held before. It never has an entry under
    [__proto__]. When the call succeeds, the data it returns is this
    record. *)
Theorem gitClone_record_fresh (h : hookState) (webcontainer : WebContainer X)
    (url : string) (w : world X) :
  useGit.webcontainer h = Some webcontainer ->
  fsState h = Some (getFs webcontainer) ->
  ready h = true ->
  let run := gitClone h url w in
  (forall k, k <> "__proto__" ->
     fileData (final run) !! k = lastWrite k (written webcontainer (events run))) /\
  fileData (final run) !! "__proto__" = None /\
  (forall res, result run = Ok res -> result_data res = fileData (final run)).
Proof.
  intros Hwc Hfs Hready.
  assert (Hrec : fileData (final (gitClone h url w)) =
                 replay ∅ (written webcontainer (events (gitClone h url w))) /\
                 forall res, result (gitClone h url w) = Ok res ->
                             result_data res = copyEntries (fileData (final (gitClone h url w)))).
  { rewrite (gitClone_run h webcontainer _ url w Hwc Hfs Hready). cbv zeta.
    destruct (startsWith url "git@"); [split; [reflexivity|discriminate]|].
    match goal with
    | |- context [runScript ?client ?s ?w0] =>
        pose proof (runScript_records webcontainer s w0) as Hs;
        destruct (runScript client s w0) as [[[[]|t] w2] e2]
    end; unfold result, final, events in *; cbn [fst snd fileData] in *; rewrite Hs.
    - split; [reflexivity|]. intros res Hres. injection Hres as <-.
      cbn [result_data]. reflexivity.
    - split; [|discriminate].
      change (GitClone ?a :: e2 ++ ?l) with ([GitClone a] ++ e2 ++ l).
      rewrite !written_app. cbn. rewrite app_nil_r. reflexivity. }
  destruct Hrec as [Hrec Hdata]. cbv zeta.
  assert (Hproto : fileData (final (gitClone h url w)) !! "__proto__" = None)
    by (rewrite Hrec, replay_proto; apply lookup_empty).
  split; [|split; [exact Hproto|]].
  - intros k Hk. rewrite Hrec, replay_lookup, lookup_empty by exact Hk.
    destruct (lastWrite k _); reflexivity.
  - intros res Hres. rewrite (Hdata res Hres). apply copyEntries_id, Hproto.
Qed.

Lemma callback_no_clone (webcontainer : WebContainer X) (c : callback) :
  always (fun e => forall args, e <> GitClone args) (runCallback (getFs webcontainer) c).
Proof.
  destruct c as [call|u|u a|u a]; [destruct call|..]; unfold_client; always_steps.
  all: intros args; discriminate.
Qed.

(** X15. An initialized [gitClone] of a url that does not start with
    ['git@'] enters the git library exactly once: its first interaction is
    the call of [git.clone], and nothing the library calls back (the client,
    the credential callbacks) calls [git.clone] again. *)
Theorem gitClone_once (h : hookState) (webcontainer : WebContainer X)
    (url : string) (w : world X) :
  useGit.webcontainer h = Some webcontainer ->
  fsState h = Some (getFs webcontainer) ->
  ready h = true ->
  startsWith url "git@" = false ->
  exists args rest,
    events (gitClone h url w) = GitClone args :: rest /\
    forall args', ~ In (GitClone args') rest.
Proof.
  intros Hwc Hfs Hready Hssh.
  rewrite (gitClone_run h webcontainer _ url w Hwc Hfs Hready). cbv zeta. rewrite Hssh.
  match goal with
  | |- context [runScript ?client ?s ?w0] =>
      pose proof (script_always (fun e => forall args, e <> GitClone args) client
                    ltac:(intros c args; discriminate)
                    (callback_no_clone webcontainer) s w0) as Hs;
      destruct (runScript client s w0) as [[[[]|t] w2] e2]
  end; unfold result, events in *; cbn [fst snd] in *;
    rewrite Forall_forall in Hs; eexists _, _; (split; [reflexivity|]).
  - intros args' Hin. apply list_elem_of_In in Hin. exact (Hs _ Hin args' eq_refl).
  - intros args' Hin. apply in_app_or in Hin as [Hin|[Hin|[]]]; [|discriminate Hin].
    apply list_elem_of_In in Hin. exact (Hs _ Hin args' eq_refl).
Qed.

(** X16. The toast of [onAuthFailure] names the host of the url: for a url
    [scheme//host/rest] it reads ['Error Authenticating with host']; for a
    url with fewer than two slashes it reads ['Error Authenticating with
    undefined']. *)
Theorem onAuthFailure_host (scheme host rest a b : string) (auth : GitAuth) (w : world X) :
  noSlash scheme -> noSlash host -> noSlash a -> noSlash b ->
  events (onAuthFailure (scheme +:+ "//" +:+ host +:+ "/" +:+ rest) auth w) =
    [ToastError ("Error Authenticating with " +:+ host)] /\
  events (onAuthFailure (scheme +:+ "//" +:+ host) auth w) =
    [ToastError ("Error Authenticating with " +:+ host)] /\
  events (onAuthFailure (a +:+ "/" +:+ b) auth w) =
    [ToastError "Error Authenticating with undefined"] /\
  events (onAuthFailure a auth w) = [ToastError "Error Authenticating with undefined"].
Proof.
  intros Hs Hh Ha Hb.
  unfold onAuthFailure, toast_error, emit, events, hostOf. cbn [snd].
  change (scheme +:+ "//" +:+ host +:+ "/" +:+ rest)
    with (scheme +:+ String slash ("" +:+ String slash (host +:+ String slash rest))).
  change (scheme +:+ "//" +:+ host)
    with (scheme +:+ String slash ("" +:+ String slash host)).
  change (a +:+ "/" +:+ b) with (a +:+ String slash b).
  rewrite !split_app_slash.
  rewrite (split_noSlash scheme), (split_noSlash host), (split_noSlash a),
    (split_noSlash b) by assumption.
  repeat split; reflexivity.
Qed.

End Confined.

(** ** More on the filesystem client *)

Section ClientMore.
Import Js pathUtils useGit.
Context {X : Type} {svc : Services X}.

(** X8. Of all the methods of the client only [writeFile] touches the
    [fileData] record: after any other call, failed or not, the record is
    what it was. After [writeFile] with an options object it has the one
    entry more, also when the container rejects the write, unless the
    relative path is [__proto__]: that write leaves the entries of the
    record as they were. *)
Theorem client_record_frame (webcontainer : WebContainer X) (call : fscall) (w : world X) :
  fileData (final (getFs webcontainer call w)) =
    match call with
    | WriteFile p d (Some o) =>
        if String.eqb (relative (workdir webcontainer) p) "__proto__"
        then fileData w
        else <[relative (workdir webcontainer) p := mkEntry d (getProp o "encoding")]>
               (fileData w)
    | _ => fileData w
    end.
Proof.
  pose proof (runCallback_frame webcontainer (CallFs call) w) as [_ Hrec].
  unfold runCallback, bind, ret, final in *.
  destruct (getFs webcontainer call w) as [[[v|t] w1] e1]; cbn [fst snd] in *;
    rewrite Hrec; destruct call as [? ?|? ? [?|]|? ?|? ?|? ?|? ?|?|?|?|?|? ?|? ?];
    reflexivity.
Qed.

(** X9. [mkdir] of the client always asks the container for a recursive
    mkdir, whatever the caller's options say; [rmdir] asks for a recursive
    removal unless the caller's options have a [recursive] of their own;
    [unlink] always asks for a non-recursive one. The other options are
    passed on as they are. *)
Theorem recursive_flags (webcontainer : WebContainer X)
    (p : string) (options : option jsobject) (w : world X) :
  let relativePath := relative (workdir webcontainer) p in
  (exists o', In (FsMkdir relativePath o') (events (mkdir webcontainer p options w)) /\
              getProp o' "recursive" = VBool true /\
              forall k, k <> "recursive" -> o' !! k = spread options !! k) /\
  (exists o', In (FsRm relativePath o') (events (rmdir webcontainer p options w)) /\
              getProp o' "recursive" =
                match spread options !! "recursive" with
                | Some v => v
                | None => VBool true
                end /\
              forall k, k <> "recursive" -> o' !! k = spread options !! k) /\
  events (unlink webcontainer p w) = [FsRm relativePath {[ "recursive" := VBool false ]}].
Proof.
  intros relativePath. split; [|split].
  - eexists. split; [|split].
    + unfold mkdir, bind, console_log, emit, await, events. fold relativePath.
      cbn [fst snd app]. destruct (c_mkdir _ _ _ _). right. left. reflexivity.
    + unfold getProp, setProp. rewrite lookup_insert_eq. reflexivity.
    + intros k Hk. unfold setProp. apply lookup_insert_ne. congruence.
  - eexists. split; [|split].
    + unfold rmdir, bind, console_log, emit, await, events. fold relativePath.
      cbn [fst snd app]. destruct (c_rm _ _ _ _). right. left. reflexivity.
    + unfold getProp. rewrite lookup_union.
      destruct (spread options !! "recursive") as [v|]; rewrite lookup_singleton_eq;
        reflexivity.
    + intros k Hk. rewrite lookup_union, lookup_singleton_ne by congruence.
      destruct (spread options !! k); reflexivity.
  - unfold unlink, await, events. fold relativePath.
    destruct (c_rm _ _ _ _). reflexivity.
Qed.

(** X10. [stat] of a path below the workdir, given by its directory
    segments [dirs] and its name [n], lists the directory made of [dirs]
    (['.'] when there is none) and succeeds exactly when the listing has an
    entry called [n]: the stats then say what that entry is. A listing that
    fails or lacks the name gives the ENOENT error. *)
Theorem stat_below_workdir (webcontainer : WebContainer X)
    (dirs : list string) (n : string) (w : world X) :
  workdir webcontainer <> "" -> Forall segment dirs -> segment n ->
  let p := workdir webcontainer +:+ "/" +:+ join "/" (dirs ++ [n]) in
  let dir := match dirs with [] => "." | _ => join "/" dirs end in
  let listing := c_readdir (fs webcontainer) dir
                   (Some {[ "withFileTypes" := VBool true ]}) (outside w) in
  match listing.1 with
  | Ok resp =>
      match findEntry resp n with
      | Some fileInfo =>
          result (stat webcontainer p w) =
            Ok (mkStats (dirent_isFile fileInfo) (dirent_isDirectory fileInfo)
                  false 1 438 (dateNow listing.2).1 1000 1000)
      | None => result (stat webcontainer p w) = Throw (enoent p)
      end
  | Throw _ => result (stat webcontainer p w) = Throw (enoent p)
  end.
Proof.
  intros Hwd Hdirs Hn p dir listing.
  assert (Hparts : Forall segment (dirs ++ [n]))
    by (apply Forall_app; split; [exact Hdirs|constructor; [exact Hn|constructor]]).
  assert (Hrel : relative (workdir webcontainer) p = join "/" (dirs ++ [n])).
  { apply relative_under_parts; [exact Hwd|destruct dirs; discriminate|exact Hparts]. }
  destruct (dirname_basename_segments dirs n Hdirs Hn) as [Hdir Hbase].
  pose proof (stat_cases webcontainer p w) as Hc. cbv zeta in Hc.
  rewrite Hrel, Hdir, Hbase in Hc. exact Hc.
Qed.

(** X11. The workdir itself cannot be stat'ed unless the container lists an
    entry called ['.']: [stat(workdir)], with or without trailing slashes,
    looks for the name ['.'] in the listing of ['.'] and throws the ENOENT
    error when the listing has no such entry. *)
Theorem stat_workdir (webcontainer : WebContainer X) (sl : string) (w : world X) :
  allSlash sl ->
  (forall l,
     (c_readdir (fs webcontainer) "." (Some {[ "withFileTypes" := VBool true ]})
        (outside w)).1 = Ok (Dirents l) ->
     Forall (fun d => name d <> ".") l) ->
  result (stat webcontainer (workdir webcontainer +:+ sl) w) =
    Throw (enoent (workdir webcontainer +:+ sl)).
Proof.
  intros Hsl Hnone.
  assert (Hrel : relative (workdir webcontainer) (workdir webcontainer +:+ sl) = ".").
  { destruct (workdir webcontainer) as [|c wd] eqn:Hwd; [reflexivity|].
    rewrite <- (append_empty_r (String c wd)) at 1.
    rewrite (relative_trailing (String c wd) (String c wd) "" sl
               ltac:(discriminate) ltac:(discriminate) allSlash_nil Hsl).
    apply relative_same. }
  pose proof (stat_cases webcontainer (workdir webcontainer +:+ sl) w) as Hc.
  cbv zeta in Hc. rewrite Hrel in Hc.
  change (dirname ".") with "." in Hc. change (basename "." None) with "." in Hc.
  destruct (c_readdir _ _ _ _).1 as [[l|l]|t] eqn:Hl; [exact Hc| |exact Hc].
  specialize (Hnone l eq_refl). cbn [findEntry] in Hc.
  destruct (List.find _ l) as [d|] eqn:Hfind; [|exact Hc].
  exfalso. apply find_some in Hfind as [Hin Hname].
  apply String.eqb_eq in Hname.
  rewrite Forall_forall in Hnone. apply (Hnone d); [|exact Hname].
  apply list_elem_of_In. exact Hin.
Qed.

End ClientMore.

(** ** EditorStore: documents, original contents, reset *)

Section EditorMore.
Import EditorStore EditorStoreMethods.
Context {History Files : Type}.
Variable addVersion : string -> string -> string -> History -> History.
Variable isExistingFile : Files -> string -> bool.

Local Abbreviation editor := (@editor History Files).

Lemma fromEntries_nodup {A} (l : list (string * A)) :
  NoDup l.*1 -> fromEntries l = list_to_map l.
Proof.
  intros Hnd. unfold fromEntries.
  rewrite <- fold_left_rev_right, rev_alt.
  change (rev_append l []) with (reverse l).
  rewrite <- (list_to_map_proper (reverse l) l).
  - generalize (reverse l). intros l'.
    induction l' as [|kv l' IH]; simpl; [reflexivity|]. rewrite IH. reflexivity.
  - rewrite fmap_reverse, reverse_Permutation. exact Hnd.
  - apply reverse_Permutation.
Qed.

(** The scroll position of [previousDocuments?.[filePath]]: a member of
    [Object.prototype] has none. *)
Lemma previous_scroll (previous : gmap string EditorDocument) (p : string) :
  getProperty previous p ≫= (fun found => scroll (fields found)) = previous !! p ≫= scroll.
Proof.
  unfold getProperty. destruct (previous !! p) as [d|]; [reflexivity|].
  destruct (bool_decide _); reflexivity.
Qed.

Lemma toDocument_keys (previous : gmap string EditorDocument)
    (l : list (string * option Dirent)) (k : string) :
  k ∈ (omap (toDocument previous) l).*1 -> k ∈ l.*1.
Proof.
  induction l as [|[q d] l IH]; [intros H; exact H|]. cbn [omap list_omap].
  unfold toDocument at 1. cbn [fst snd].
  destruct d as [[c b|]|]; cbn [fmap list_fmap fst]; rewrite ?elem_of_cons; intros H;
    [destruct H as [->|H]; [left; reflexivity|right; apply IH, H]|right; apply IH, H..].
Qed.

Lemma toDocument_nodup (previous : gmap string EditorDocument)
    (l : list (string * option Dirent)) :
  NoDup l.*1 -> NoDup (omap (toDocument previous) l).*1.
Proof.
  induction l as [|[q d] l IH]; [intros H; exact H|]. cbn [fmap list_fmap fst].
  intros Hnd. apply NoDup_cons in Hnd as [Hq Hnd]. cbn [omap list_omap].
  unfold toDocument at 1. cbn [fst snd].
  destruct d as [[c b|]|]; [|exact (IH Hnd)..].
  cbn [fmap list_fmap fst]. apply NoDup_cons. split; [|exact (IH Hnd)].
  intros Hin. apply Hq. eapply toDocument_keys, Hin.
Qed.

Lemma toDocument_lookup (previous : gmap string EditorDocument)
    (l : list (string * option Dirent)) (p : string) :
  NoDup l.*1 ->
  (list_to_map (omap (toDocument previous) l) : gmap string EditorDocument) !! p =
    match (list_to_map l : gmap string (option Dirent)) !! p with
    | Some (Some (File content binary)) =>
        Some (mkDocument content p (previous !! p ≫= scroll) binary)
    | _ => None
    end.
Proof.
  induction l as [|[q d] l IH]; [intros _; reflexivity|]. cbn [fmap list_fmap fst].
  intros Hnd. apply NoDup_cons in Hnd as [Hq Hnd]. specialize (IH Hnd).
  rewrite list_to_map_cons. cbn [omap list_omap].
  unfold toDocument at 1. cbn [fst snd].
  destruct (decide (q = p)) as [->|Hne].
  - rewrite lookup_insert_eq.
    destruct d as [[c b|]|].
    + cbv zeta. rewrite list_to_map_cons, previous_scroll. apply lookup_insert_eq.
    + apply not_elem_of_list_to_map. intros Hin. apply Hq. eapply toDocument_keys, Hin.
    + apply not_elem_of_list_to_map. intros Hin. apply Hq. eapply toDocument_keys, Hin.
  - rewrite lookup_insert_ne by exact Hne. rewrite <- IH.
    destruct d as [[c b|]|]; [|reflexivity..].
    rewrite list_to_map_cons. apply lookup_insert_ne, Hne.
Qed.

Lemma remember_lookup (l : list (string * option Dirent)) (p : string) :
  NoDup l.*1 ->
  forall original,
    fold_left remember l original !! p =
      match original !! p with
      | Some c => Some c
      | None =>
          match (list_to_map l : gmap string (option Dirent)) !! p with
          | Some (Some (File content _)) => Some content
          | _ => None
          end
      end.
Proof.
  induction l as [|[q d] l IH]; intros Hnd original.
  - cbn. destruct (original !! p); reflexivity.
  - cbn [fmap list_fmap fst] in Hnd. apply NoDup_cons in Hnd as [Hq Hnd].
    cbn [fold_left]. rewrite (IH Hnd), list_to_map_cons.
    unfold remember. cbn [fst snd].
    destruct (decide (q = p)) as [->|Hne].
    + rewrite lookup_insert_eq.
      assert (Hnone : (list_to_map l : gmap string (option Dirent)) !! p = None)
        by (apply not_elem_of_list_to_map; exact Hq).
      rewrite Hnone.
      destruct d as [[c b|]|]; [|destruct (original !! p); reflexivity..].
      destruct (original !! p) as [c0|] eqn:Ho; [rewrite Ho; reflexivity|].
      rewrite lookup_insert_eq. reflexivity.
    + rewrite lookup_insert_ne by exact Hne.
      destruct d as [[c b|]|]; [|reflexivity..].
      destruct (original !! q); [reflexivity|].
      rewrite lookup_insert_ne by exact Hne. reflexivity.
Qed.

Lemma setDocuments_lookup (files : FileMap) (e : editor) (p : string) :
  documents (base (setDocuments files e)) !! p =
    match files !! p with
    | Some (Some (File content binary)) =>
        Some (mkDocument content p (documents (base e) !! p ≫= scroll) binary)
    | _ => None
    end.
Proof.
  unfold setDocuments. cbn [base withDocuments documents].
  rewrite fromEntries_nodup
    by (apply toDocument_nodup, NoDup_fst_map_to_list).
  rewrite toDocument_lookup by apply NoDup_fst_map_to_list.
  rewrite list_to_map_to_list. reflexivity.
Qed.

Lemma setDocuments_remembers (files : FileMap) (e : editor) (p : string) :
  originalContent (setDocuments files e) !! p =
    match originalContent e !! p with
    | Some c => Some c
    | None =>
        match files !! p with
        | Some (Some (File content _)) => Some content
        | _ => None
        end
    end.
Proof.
  unfold setDocuments. cbn [originalContent].
  rewrite remember_lookup by apply NoDup_fst_map_to_list.
  rewrite list_to_map_to_list. reflexivity.
Qed.

(** X17. After [setDocuments(files)] the documents are exactly the files of
    [files]: a path has a document if and only if [files] has a file (not a
    folder, not [undefined]) under it; the document has the content and the
    binary flag of the file, the path as [filePath], and the scroll
    position of the document the path had before, if it had one. The
    selection, the version history and the sets of unsaved and modified
    files are left alone. *)
Theorem setDocuments_documents (files : FileMap) (e : editor) (p : string) :
  documents (base (setDocuments files e)) !! p =
    match files !! p with
    | Some (Some (File content binary)) =>
        Some (mkDocument content p (documents (base e) !! p ≫= scroll) binary)
    | _ => None
    end /\
  selectedFile (setDocuments files e) = selectedFile e /\
  versionHistoryStore (base (setDocuments files e)) = versionHistoryStore (base e) /\
  unsavedFiles (base (setDocuments files e)) = unsavedFiles (base e) /\
  modifiedFiles (base (setDocuments files e)) = modifiedFiles (base e).
Proof.
  split; [apply setDocuments_lookup|]. repeat split; reflexivity.
Qed.

(** X18. [setDocuments] records the original content of a file the first
    time it sees the path and never overwrites it: a path that has an
    original content keeps it, a path that has none gets the content of its
    file in [files], if it is a file there; so whatever [files'] a later
    [setDocuments] is given, the original content stays. *)
Theorem setDocuments_original (files files' : FileMap) (e : editor) (p : string) :
  originalContent (setDocuments files e) !! p =
    match originalContent e !! p with
    | Some c => Some c
    | None =>
        match files !! p with
        | Some (Some (File content _)) => Some content
        | _ => None
        end
    end /\
  (forall c, originalContent (setDocuments files e) !! p = Some c ->
             originalContent (setDocuments files' (setDocuments files e)) !! p = Some c).
Proof.
  split; [apply setDocuments_remembers|].
  intros c Hc. rewrite setDocuments_remembers, Hc. reflexivity.
Qed.

(** X19. Every document sits under its own path: [setDocuments] makes it
    so whatever was there before, and [updateScrollPosition], [updateFile]
    and [resetFile] keep it so when called for a path that has a document
    or is no name inherited from [Object.prototype]. Called for an inherited
    name without a document, [updateFile] and [updateScrollPosition] break
    it: the object they store under the name has no [filePath]. *)
Theorem documents_keyed (files : FileMap) (e : editor)
    (p c : string) (position : ScrollPosition) :
  keyed (documents (base (setDocuments files e))) /\
  (keyed (documents (base e)) ->
   is_Some (documents (base e) !! p) \/ p ∉ inheritedNames ->
   keyed (documents (base (updateScrollPosition p position e))) /\
   keyed (documents (updateFile addVersion isExistingFile p c (base e))) /\
   keyed (documents (base (resetFile addVersion isExistingFile p e)))) /\
  (documents (base e) !! p = None -> p ∈ inheritedNames ->
   ~ keyed (documents (base (updateScrollPosition p position e))) /\
   ~ keyed (documents (updateFile addVersion isExistingFile p c (base e)))).
Proof.
  assert (Hupdate : forall q content s,
            keyed (documents s) ->
            is_Some (documents s !! q) \/ q ∉ inheritedNames ->
            keyed (documents (updateFile addVersion isExistingFile q content s))).
  { intros q content s Hk Hq. unfold updateFile.
    destruct (documents s !! q) as [d|] eqn:Hd.
    - rewrite (getProperty_own _ _ _ Hd). cbn [fields].
      destruct (negb _); [|exact Hk]. cbn [documents]. intros q' d' Hq'.
      destruct (decide (q = q')) as [<-|Hne].
      + rewrite lookup_insert_eq in Hq'. injection Hq' as <-. exact (Hk q d Hd).
      + rewrite lookup_insert_ne in Hq' by exact Hne. exact (Hk q' d' Hq').
    - destruct Hq as [[d Hsome]|Hout]; [discriminate Hsome|].
      rewrite (proj2 (getProperty_None _ _) (conj Hd Hout)). exact Hk. }
  split; [|split].
  - intros q d Hq. rewrite setDocuments_lookup in Hq.
    destruct (files !! q) as [[[content binary|]|]|]; try discriminate Hq.
    injection Hq as <-. reflexivity.
  - intros Hk Hp. split; [|split].
    + unfold updateScrollPosition.
      destruct (documents (base e) !! p) as [d|] eqn:Hd.
      * rewrite (getProperty_own _ _ _ Hd). cbn [fields base withDocuments documents].
        intros q d' Hq. destruct (decide (p = q)) as [<-|Hne].
        -- rewrite lookup_insert_eq in Hq. injection Hq as <-. exact (Hk p d Hd).
        -- rewrite lookup_insert_ne in Hq by exact Hne. exact (Hk q d' Hq).
      * destruct Hp as [[d Hsome]|Hout]; [discriminate Hsome|].
        rewrite (proj2 (getProperty_None _ _) (conj Hd Hout)). exact Hk.
    + apply Hupdate; assumption.
    + unfold resetFile. destruct (originalContent e !! p) as [original|]; [|exact Hk].
      destruct (Js.truthy original); [|exact Hk]. cbn [base documents].
      apply Hupdate; assumption.
  - intros Hd Hin. split.
    + unfold updateScrollPosition. rewrite (getProperty_inherited _ _ Hd Hin).
      cbn [fields base withDocuments documents]. intros Hk.
      specialize (Hk p _ (lookup_insert_eq _ _ _)). discriminate Hk.
    + unfold updateFile. rewrite (getProperty_inherited _ _ Hd Hin).
      cbn [fields value negb]. rewrite bool_decide_eq_false_2 by discriminate.
      cbn [negb documents]. intros Hk.
      specialize (Hk p _ (lookup_insert_eq _ _ _)). discriminate Hk.
Qed.

(** X20. A scroll position outlives a refresh of the documents: after
    [updateScrollPosition(p, position)] on a path that has a document,
    [setDocuments(files)] with a file under [p] gives the document of [p]
    the content of the file and still that scroll position. *)
Theorem scroll_survives_setDocuments (files : FileMap) (e : editor)
    (p content : string) (binary : bool) (position : ScrollPosition) :
  is_Some (documents (base e) !! p) ->
  files !! p = Some (Some (File content binary)) ->
  documents (base (setDocuments files (updateScrollPosition p position e))) !! p =
    Some (mkDocument content p (Some position) binary).
Proof.
  intros [d Hd] Hfile. rewrite setDocuments_lookup, Hfile.
  unfold updateScrollPosition. rewrite (getProperty_own _ _ _ Hd).
  cbn [base withDocuments documents]. rewrite lookup_insert_eq. reflexivity.
Qed.

(** X21. [resetFile] does nothing at all for a path without a recorded
    original content, and also for one whose original content is the empty
    string: the document keeps its edited value and the path stays in
    [unsavedFiles] and [modifiedFiles]. *)
Theorem resetFile_nothing (p : string) (e : editor) :
  originalContent e !! p = None \/ originalContent e !! p = Some "" ->
  resetFile addVersion isExistingFile p e = e.
Proof. intros [H|H]; unfold resetFile; rewrite H; reflexivity. Qed.

Lemma resetFile_document (p original : string) (e : editor) (d : EditorDocument) :
  originalContent e !! p = Some original -> original <> "" ->
  documents (base e) !! p = Some d ->
  documents (base (resetFile addVersion isExistingFile p e)) !! p =
    Some (withValue d original).
Proof.
  intros Ho Hne Hd. unfold resetFile. rewrite Ho.
  assert (Ht : Js.truthy original = true)
    by (unfold Js.truthy; apply isEmpty_false in Hne; rewrite Hne; reflexivity).
  rewrite Ht. cbn [base documents]. unfold updateFile.
  rewrite (getProperty_own _ _ _ Hd). cbn [fields].
  destruct (decide (value d = Some original)) as [Heq|Hdiff].
  - rewrite bool_decide_eq_true_2 by exact Heq. cbn [negb]. rewrite Hd.
    destruct d. cbn in Heq. subst. reflexivity.
  - rewrite bool_decide_eq_false_2 by exact Hdiff. cbn [negb documents].
    apply lookup_insert_eq.
Qed.

Lemma resetFile_unmarks (p original : string) (e : editor) :
  originalContent e !! p = Some original -> original <> "" ->
  p ∉ unsavedFiles (base (resetFile addVersion isExistingFile p e)) /\
  p ∉ modifiedFiles (base (resetFile addVersion isExistingFile p e)).
Proof.
  intros Ho Hne. unfold resetFile. rewrite Ho.
  assert (Ht : Js.truthy original = true)
    by (unfold Js.truthy; apply isEmpty_false in Hne; rewrite Hne; reflexivity).
  rewrite Ht. cbn [base unsavedFiles modifiedFiles]. split; set_solver.
Qed.

(** X22. [resetFile] of a path with a non-empty original content puts that
    content back into its document, if it has one, leaves every other
    document alone and takes the path, and only the path, out of
    [unsavedFiles] and [modifiedFiles]. *)
Theorem resetFile_restores (p original : string) (e : editor) :
  originalContent e !! p = Some original -> original <> "" ->
  let e' := resetFile addVersion isExistingFile p e in
  (forall d, documents (base e) !! p = Some d ->
             documents (base e') !! p = Some (withValue d original)) /\
  (forall q, q <> p -> documents (base e') !! q = documents (base e) !! q) /\
  p ∉ unsavedFiles (base e') /\ p ∉ modifiedFiles (base e') /\
  (forall q, q <> p ->
     (q ∈ unsavedFiles (base e') <-> q ∈ unsavedFiles (base e)) /\
     (q ∈ modifiedFiles (base e') <-> q ∈ modifiedFiles (base e))).
Proof.
  intros Ho Hne. cbv zeta.
  split; [intros d Hd; apply resetFile_document; assumption|].
  destruct (resetFile_unmarks p original e Ho Hne) as [Hu Hm].
  split; [|split; [exact Hu|split; [exact Hm|]]];
    unfold resetFile; rewrite Ho;
    assert (Ht : Js.truthy original = true)
      by (unfold Js.truthy; apply isEmpty_false in Hne; rewrite Hne; reflexivity);
    rewrite Ht; cbn [base documents unsavedFiles modifiedFiles]; unfold updateFile.
  - intros q Hq. destruct (getProperty (documents (base e)) p) as [found|]; [|reflexivity].
    destruct (negb _); [|reflexivity]. cbn [documents].
    apply lookup_insert_ne. congruence.
  - intros q Hq. destruct (getProperty (documents (base e)) p) as [found|]; [|set_solver].
    destruct (negb _); [|set_solver]. cbn [unsavedFiles modifiedFiles].
    destruct (isExistingFile _ _); set_solver.
Qed.

(** X23. [updateFile] with a content that differs from the document's
    stores it: the document of the path then has the new content and is
    otherwise as before, every other document is untouched, the version
    history gets the one version ['Modified in editor'], and a path the
    files store takes for an existing file is in [unsavedFiles] and
    [modifiedFiles] afterwards. *)
Theorem updateFile_changed (p c : string) (s : @stores History Files) (d : EditorDocument) :
  documents s !! p = Some d -> value d <> Some c ->
  let s' := updateFile addVersion isExistingFile p c s in
  documents s' !! p = Some (withValue d c) /\
  (forall q, q <> p -> documents s' !! q = documents s !! q) /\
  versionHistoryStore s' = addVersion p c "Modified in editor" (versionHistoryStore s) /\
  (isExistingFile (filesStore s) p = true ->
   p ∈ unsavedFiles s' /\ p ∈ modifiedFiles s') /\
  (forall q, q <> p ->
     (q ∈ unsavedFiles s' <-> q ∈ unsavedFiles s) /\
     (q ∈ modifiedFiles s' <-> q ∈ modifiedFiles s)).
Proof.
  intros Hd Hdiff. cbv zeta. unfold updateFile. rewrite (getProperty_own _ _ _ Hd).
  cbn [fields]. rewrite bool_decide_eq_false_2 by exact Hdiff.
  cbn [negb documents versionHistoryStore unsavedFiles modifiedFiles].
  split; [apply lookup_insert_eq|]. split; [|split; [reflexivity|split]].
  - intros q Hq. apply lookup_insert_ne. congruence.
  - intros ->. set_solver.
  - intros q Hq. destruct (isExistingFile _ _); set_solver.
Qed.

(** X24. [updateFile] is idempotent: calling it a second time with the same
    path and content changes nothing, in particular no second version is
    added to the history. *)
Theorem updateFile_idempotent (p c : string) (s : @stores History Files) :
  updateFile addVersion isExistingFile p c (updateFile addVersion isExistingFile p c s) =
  updateFile addVersion isExistingFile p c s.
Proof.
  destruct (getProperty (documents s) p) as [found|] eqn:Hfound.
  - destruct (decide (value (fields found) = Some c)) as [He|He].
    + assert (Hsame : updateFile addVersion isExistingFile p c s = s)
        by (unfold updateFile; rewrite Hfound, bool_decide_eq_true_2 by exact He;
            reflexivity).
      rewrite !Hsame. reflexivity.
    + set (s1 := updateFile addVersion isExistingFile p c s).
      assert (Hdoc : documents s1 !! p = Some (withValue (fields found) c))
        by (subst s1; unfold updateFile;
            rewrite Hfound, bool_decide_eq_false_2 by exact He; apply lookup_insert_eq).
      unfold updateFile at 1. rewrite (getProperty_own _ _ _ Hdoc).
      cbn [fields value withValue].
      rewrite bool_decide_eq_true_2 by reflexivity. reflexivity.
  - assert (Hsame : updateFile addVersion isExistingFile p c s = s)
      by (unfold updateFile; rewrite Hfound; reflexivity).
    rewrite !Hsame. reflexivity.
Qed.

(** X25. Reset undoes an edit: for a file first seen by [setDocuments]
    with a non-empty content, an [updateFile] followed by [resetFile] leaves
    the document with the content [setDocuments] gave it and the path in
    neither [unsavedFiles] nor [modifiedFiles]. *)
Theorem reset_undoes_update (files : FileMap) (e : editor)
    (p content c : string) (binary : bool) :
  originalContent e !! p = None ->
  files !! p = Some (Some (File content binary)) -> content <> "" ->
  let opened := setDocuments files e in
  let edited := updateFile' addVersion isExistingFile p c opened in
  let reset := resetFile addVersion isExistingFile p edited in
  documents (base reset) !! p = documents (base opened) !! p /\
  p ∉ unsavedFiles (base reset) /\ p ∉ modifiedFiles (base reset).
Proof.
  intros Hfresh Hfile Hne opened edited reset.
  assert (Horig : originalContent edited !! p = Some content).
  { subst edited opened. cbn [updateFile' originalContent].
    change (originalContent (setDocuments files e) !! p = Some content).
    rewrite setDocuments_remembers, Hfresh, Hfile. reflexivity. }
  assert (Hopened : documents (base opened) !! p =
                    Some (mkDocument content p (documents (base e) !! p ≫= scroll) binary)).
  { subst opened. rewrite setDocuments_lookup, Hfile. reflexivity. }
  destruct (resetFile_unmarks p content edited Horig Hne) as [Hu Hm].
  pose proof (fun d => resetFile_document p content edited d Horig Hne) as Hdoc.
  fold reset in Hdoc, Hu, Hm. split; [|split; assumption].
  rewrite Hopened. subst edited. cbn [updateFile' base] in Hdoc.
  unfold updateFile in Hdoc at 1. rewrite (getProperty_own _ _ _ Hopened) in Hdoc.
  destruct (negb _); cbn [documents] in Hdoc.
  - rewrite (Hdoc _ (lookup_insert_eq _ _ _)). reflexivity.
  - rewrite (Hdoc _ Hopened). reflexivity.
Qed.

End EditorMore.

(** ** String.prototype.trim *)

Section Trim.
Import Js.

Lemma dropPrefix_spec (pre : string) :
  forall s rest, dropPrefix pre s = Some rest <-> s = pre +:+ rest.
Proof.
  induction pre as [|a pre IH]; intros s rest; cbn [dropPrefix].
  - rewrite append_nil. split; congruence.
  - destruct s as [|b s]; [rewrite append_cons; split; discriminate|].
    rewrite append_cons. destruct (Ascii.eqb_spec a b) as [->|Hne].
    + rewrite IH. split; congruence.
    + split; [discriminate|]. intros Heq. congruence.
Qed.

Lemma dropAny_Some (seps : list string) (s rest : string) :
  dropAny seps s = Some rest -> exists sep, In sep seps /\ s = sep +:+ rest.
Proof.
  induction seps as [|sep seps IH]; cbn [dropAny]; [discriminate|].
  destruct (dropPrefix sep s) as [r|] eqn:Hd.
  - intros Heq. injection Heq as ->. exists sep. split; [left; reflexivity|].
    apply dropPrefix_spec, Hd.
  - intros Hrest. destruct (IH Hrest) as (sep' & Hin & Hs). exists sep'.
    split; [right; exact Hin|exact Hs].
Qed.

Lemma dropAny_None (seps : list string) (s : string) :
  dropAny seps s = None <-> forall sep rest, In sep seps -> s <> sep +:+ rest.
Proof.
  induction seps as [|sep seps IH]; cbn [dropAny].
  - split; [intros _ sep rest []|reflexivity].
  - destruct (dropPrefix sep s) as [r|] eqn:Hd.
    + split; [discriminate|]. intros Hno. exfalso.
      apply (Hno sep r); [left; reflexivity|]. apply dropPrefix_spec, Hd.
    + rewrite IH. split.
      * intros Hno sep' rest [<-|Hin]; [|exact (Hno sep' rest Hin)].
        intros Hs. apply dropPrefix_spec in Hs. congruence.
      * intros Hno sep' rest Hin. apply Hno. right. exact Hin.
Qed.

(** With enough fuel nothing of [seps] is left at the front, and what is
    left is the end of the string. *)
Lemma stripStart_done (seps : list string) :
  Forall (fun sep => sep <> "") seps ->
  forall fuel s, String.length s <= fuel -> dropAny seps (stripStart seps fuel s) = None.
Proof.
  intros Hne. induction fuel as [|fuel IH]; intros s Hlen; cbn [stripStart].
  - destruct s; [|cbn in Hlen; lia]. apply dropAny_None. intros sep rest Hin Hs.
    rewrite Forall_forall in Hne. apply (Hne sep); [apply list_elem_of_In; exact Hin|].
    destruct sep; [reflexivity|]. rewrite append_cons in Hs. discriminate Hs.
  - destruct (dropAny seps s) as [rest|] eqn:Hd; [|exact Hd].
    apply IH. destruct (dropAny_Some _ _ _ Hd) as (sep & Hin & ->).
    rewrite string_length_app in Hlen.
    rewrite Forall_forall in Hne.
    assert (Hsep : sep <> "") by (apply Hne, list_elem_of_In, Hin).
    destruct sep; [congruence|]. cbn in Hlen. lia.
Qed.

Lemma stripStart_suffix (seps : list string) :
  forall fuel s, exists front, s = front +:+ stripStart seps fuel s.
Proof.
  induction fuel as [|fuel IH]; intros s; cbn [stripStart]; [exists ""; reflexivity|].
  destruct (dropAny seps s) as [rest|] eqn:Hd; [|exists ""; reflexivity].
  destruct (dropAny_Some _ _ _ Hd) as (sep & _ & ->).
  destruct (IH rest) as [front Hfront]. exists (sep +:+ front).
  rewrite append_assoc, <- Hfront. reflexivity.
Qed.

(** Two strings that start the same string: one starts the other. *)
Lemma prefixes_comparable (a : string) :
  forall b x y, a +:+ x = b +:+ y -> startsWith b a = true \/ startsWith a b = true.
Proof.
  induction a as [|c a IH]; intros b x y Heq; [left; reflexivity|].
  destruct b as [|d b]; [right; reflexivity|].
  rewrite !append_cons in Heq. injection Heq as -> Heq.
  cbn [startsWith]. rewrite Ascii.eqb_refl. cbn [andb]. exact (IH b x y Heq).
Qed.

Lemma prefixFree_unique (seps : list string) (a b x y : string) :
  prefixFree seps = true -> In a seps -> In b seps -> a +:+ x = b +:+ y ->
  a = b /\ x = y.
Proof.
  intros Hfree Ha Hb Heq. unfold prefixFree in Hfree. rewrite forallb_forall in Hfree.
  assert (Hab : a = b).
  { destruct (prefixes_comparable a b x y Heq) as [Hp|Hp].
    - specialize (Hfree a Ha). rewrite forallb_forall in Hfree. specialize (Hfree b Hb).
      rewrite Hp in Hfree. cbn in Hfree. rewrite orb_false_r in Hfree.
      apply String.eqb_eq, Hfree.
    - specialize (Hfree b Hb). rewrite forallb_forall in Hfree. specialize (Hfree a Ha).
      rewrite Hp in Hfree. cbn in Hfree. rewrite orb_false_r in Hfree.
      symmetry. apply String.eqb_eq, Hfree. }
  split; [exact Hab|]. subst b. clear -Heq.
  induction a as [|c a IH]; [exact Heq|]. rewrite !append_cons in Heq.
  injection Heq as Heq. exact (IH Heq).
Qed.

Lemma dropAny_prefix (seps : list string) (sep rest : string) :
  prefixFree seps = true -> In sep seps -> dropAny seps (sep +:+ rest) = Some rest.
Proof.
  intros Hfree Hin. destruct (dropAny seps (sep +:+ rest)) as [r|] eqn:Hd.
  - destruct (dropAny_Some _ _ _ Hd) as (sep' & Hin' & Heq).
    destruct (prefixFree_unique seps sep sep' rest r Hfree Hin Hin' Heq) as [_ ->].
    reflexivity.
  - exfalso. rewrite dropAny_None in Hd. exact (Hd sep rest Hin eq_refl).
Qed.

Lemma white_seps (c : string) : white c <-> In c (List.map utf8 whiteSpace).
Proof.
  unfold white. rewrite in_map_iff. split.
  - intros (n & Hin & ->). exists n. auto.
  - intros (n & <- & Hin). exists n. auto.
Qed.

Lemma whiteSpace_nonempty : Forall (fun sep => sep <> "") (List.map utf8 whiteSpace).
Proof. vm_compute. repeat constructor; discriminate. Qed.

Lemma whiteSpace_reversed_nonempty :
  Forall (fun sep => sep <> "") (List.map (fun c => reverse (utf8 c)) whiteSpace).
Proof. vm_compute. repeat constructor; discriminate. Qed.

Lemma whiteSpace_prefixFree : prefixFree (List.map utf8 whiteSpace) = true.
Proof. vm_compute. reflexivity. Qed.

Lemma trimStart_front (s c rest : string) : white c -> trimStart s <> c +:+ rest.
Proof.
  intros Hc. apply white_seps in Hc.
  pose proof (stripStart_done _ whiteSpace_nonempty (String.length s) s (le_n _)) as Hd.
  rewrite dropAny_None in Hd. exact (Hd c rest Hc).
Qed.

Lemma trimEnd_back (s c front : string) : white c -> trimEnd s <> front +:+ c.
Proof.
  intros (n & Hin & ->) Heq.
  pose proof (stripStart_done _ whiteSpace_reversed_nonempty (String.length s)
                (reverse s)) as Hd.
  assert (Hlen : String.length (reverse s) <= String.length s).
  { clear. unfold reverse. enough (H : forall acc, String.length (rev_onto s acc) =
        String.length s + String.length acc) by (rewrite H; cbn; lia).
    induction s as [|c s IH]; intros acc; cbn [rev_onto]; [reflexivity|].
    rewrite IH. cbn. lia. }
  specialize (Hd Hlen). rewrite dropAny_None in Hd.
  apply (Hd (reverse (utf8 n)) (reverse front)).
  - apply in_map_iff. exists n. auto.
  - unfold trimEnd in Heq. rewrite <- reverse_app, <- Heq, reverse_involutive. reflexivity.
Qed.

Lemma trimEnd_prefix (s : string) : exists back, s = trimEnd s +:+ back.
Proof.
  unfold trimEnd.
  destruct (stripStart_suffix (List.map (fun c => reverse (utf8 c)) whiteSpace)
              (String.length s) (reverse s)) as [front Hfront].
  exists (reverse front).
  rewrite <- reverse_app, <- Hfront, reverse_involutive. reflexivity.
Qed.

Lemma trim_trimmed (s : string) : trimmed (trim s).
Proof.
  intros c Hc. unfold trim. split.
  - intros rest Heq. destruct (trimEnd_prefix (trimStart s)) as [back Hback].
    rewrite Heq, append_assoc in Hback. exact (trimStart_front s c _ Hc Hback).
  - intros front. apply trimEnd_back, Hc.
Qed.

Lemma stripStart_blank (cs : list string) :
  Forall white cs ->
  forall fuel, length cs <= fuel ->
    stripStart (List.map utf8 whiteSpace) fuel (String.concat "" cs) = "".
Proof.
  induction 1 as [|c cs Hc Hcs IH]; intros fuel Hlen.
  - destruct fuel; reflexivity.
  - destruct fuel as [|fuel]; [cbn in Hlen; lia|].
    assert (Hconcat : String.concat "" (c :: cs) = c +:+ String.concat "" cs).
    { destruct cs as [|c' cs]; [cbn; rewrite append_empty_r; reflexivity|reflexivity]. }
    rewrite Hconcat. cbn [stripStart].
    rewrite (dropAny_prefix _ c _ whiteSpace_prefixFree (proj1 (white_seps c) Hc)).
    apply IH. cbn in Hlen. lia.
Qed.

Lemma concat_length (cs : list string) :
  Forall (fun c => c <> "") cs -> length cs <= String.length (String.concat "" cs).
Proof.
  induction 1 as [|c cs Hc Hcs IH]; [cbn; lia|].
  assert (Hconcat : String.concat "" (c :: cs) = c +:+ String.concat "" cs).
  { destruct cs as [|c' cs]; [cbn; rewrite append_empty_r; reflexivity|reflexivity]. }
  rewrite Hconcat, string_length_app. destruct c; [congruence|]. cbn in *. lia.
Qed.

Lemma trim_blank (s : string) : blank s -> trim s = "".
Proof.
  intros (cs & Hcs & ->). unfold trim, trimStart.
  rewrite (stripStart_blank cs Hcs); [reflexivity|].
  apply concat_length. eapply Forall_impl; [exact Hcs|].
  intros c Hc%white_seps. pose proof whiteSpace_nonempty as Hne.
  rewrite Forall_forall in Hne. apply Hne, list_elem_of_In, Hc.
Qed.

End Trim.

(** ** Workbench: how the handlers end *)

Section PushMore.
Import Workbench.
Context {X : Type} (pushToGitHub : pushArgs -> X -> outcome string * X).

Lemma includes_spec (sub : string) :
  forall s, Js.includes s sub = true <-> exists a b, s = a +:+ sub +:+ b.
Proof.
  induction s as [|c s IH]; cbn [Js.includes].
  - rewrite orb_false_r, startsWith_spec. split.
    + intros [rest Hr]. exists "", rest. exact Hr.
    + intros (a & b & Hab). destruct a as [|c a]; [exists b; exact Hab|].
      rewrite append_cons in Hab. discriminate Hab.
  - rewrite orb_true_iff, startsWith_spec, IH. split.
    + intros [[rest Hr]|(a & b & Hab)].
      * exists "", rest. exact Hr.
      * exists (String c a), b. rewrite append_cons, Hab. reflexivity.
    + intros (a & b & Hab). destruct a as [|c' a].
      * left. exists b. exact Hab.
      * right. rewrite append_cons in Hab. injection Hab as -> ->. eauto.
Qed.

(** The toast shown for what the store rejected with. *)
Lemma push_rejected (f : formState) (x : X) (args : pushArgs) (t : thrown) :
  args = {| push_repoName := Js.trim (githubRepoName f);
            push_username := Js.trim (githubUsername f);
            push_token := Js.trim (githubToken f);
            push_isPrivate := isPrivateRepo f;
            push_branch :=
              if isNewBranch f then Some (Js.trim (newBranchName f)) else None;
            push_isNewBranch := isNewBranch f |} ->
  (pushToGitHub args x).1 = Throw t ->
  exists msg,
    push pushToGitHub f x =
      (Ok tt, (pushToGitHub args x).2,
       [SetIsGitHubPushing true; PushToGitHub args; ConsoleError t; ToastError msg;
        SetIsGitHubPushing false]) /\
    msg =
      if Js.includes (messageOr t "Failed to push to GitHub") "Repository does not exist"
      then "Cannot create a new branch in a non-existent repository. Please create the repository first."
      else if Js.includes (messageOr t "Failed to push to GitHub") "rate limit"
      then "GitHub API rate limit exceeded. Please try again later."
      else messageOr t "Failed to push to GitHub".
Proof.
  intros -> Ht. unfold push, tryFinally, tryCatch, bind, await_push, emit, toast_error.
  destruct (pushToGitHub _ x) as [r x']. cbn [fst snd] in *. subst r.
  eexists. split; [|reflexivity].
  repeat match goal with |- context [if ?b then _ else _] => destruct b end; reflexivity.
Qed.

(** X26. [handleGitHubPush] never rejects and always ends in one of three
    ways: an error toast and nothing else (a check failed); or the store is
    called once, succeeds, the success toast is shown and the dialog closed;
    or the store is called once, rejects, the error is logged and one error
    toast is shown, the dialog staying open. Whenever the pushing flag was
    set it is cleared again as the last step. *)
Theorem handleGitHubPush_ends (f : formState) (x : X) :
  let run := handleGitHubPush pushToGitHub f x in
  result run = Ok tt /\
  ((exists msg, events run = [ToastError msg] /\ final run = x) \/
   (exists args repoUrl,
      pushToGitHub args x = (Ok repoUrl, final run) /\
      events run = [SetIsGitHubPushing true; PushToGitHub args; ToastSuccess repoUrl;
                    SetShowGitHubDialog false; SetIsGitHubPushing false]) \/
   (exists args t msg,
      pushToGitHub args x = (Throw t, final run) /\
      events run = [SetIsGitHubPushing true; PushToGitHub args; ConsoleError t;
                    ToastError msg; SetIsGitHubPushing false])).
Proof.
  assert (Hpush :
    let run := push pushToGitHub f x in
    result run = Ok tt /\
    ((exists msg, events run = [ToastError msg] /\ final run = x) \/
     (exists args repoUrl,
        pushToGitHub args x = (Ok repoUrl, final run) /\
        events run = [SetIsGitHubPushing true; PushToGitHub args; ToastSuccess repoUrl;
                      SetShowGitHubDialog false; SetIsGitHubPushing false]) \/
     (exists args t msg,
        pushToGitHub args x = (Throw t, final run) /\
        events run = [SetIsGitHubPushing true; PushToGitHub args; ConsoleError t;
                      ToastError msg; SetIsGitHubPushing false]))).
  { cbv zeta.
    destruct (pushToGitHub
                {| push_repoName := Js.trim (githubRepoName f);
                   push_username := Js.trim (githubUsername f);
                   push_token := Js.trim (githubToken f);
                   push_isPrivate := isPrivateRepo f;
                   push_branch :=
                     if isNewBranch f then Some (Js.trim (newBranchName f)) else None;
                   push_isNewBranch := isNewBranch f |} x) as [[repoUrl|t] x'] eqn:Hstore.
    - unfold push, tryFinally, tryCatch, bind, await_push, emit, toast_error.
      rewrite Hstore. cbn. split; [reflexivity|]. right. left.
      eexists _, repoUrl. split; [exact Hstore|reflexivity].
    - destruct (push_rejected f x _ t eq_refl) as (msg & Hrun & _);
        [rewrite Hstore; reflexivity|].
      rewrite Hrun, Hstore. cbn. split; [reflexivity|]. right. right.
      eexists _, t, msg. split; [exact Hstore|reflexivity]. }
  cbv zeta in *. unfold handleGitHubPush.
  destruct (Js.isEmpty (githubRepoName f) || Js.isEmpty (githubUsername f)
            || Js.isEmpty (githubToken f));
    [split; [reflexivity|left; eexists; split; reflexivity]|].
  destruct (negb (Js.startsWith (githubToken f) "ghp_")
            && negb (Js.startsWith (githubToken f) "github_pat_"));
    [split; [reflexivity|left; eexists; split; reflexivity]|].
  destruct (isNewBranch f); [|exact Hpush].
  destruct (Js.isEmpty (newBranchName f));
    [split; [reflexivity|left; eexists; split; reflexivity]|].
  destruct (negb (isValidBranchName (newBranchName f)));
    [split; [reflexivity|left; eexists; split; reflexivity]|exact Hpush].
Qed.

(** X27. The error toast after a rejected push: a rejection that is not an
    [Error] is reported as ['Failed to push to GitHub']; an [Error] whose
    message mentions ['Repository does not exist'] gets the toast about the
    non-existent repository, also when it mentions ['rate limit'] as well;
    one that mentions only ['rate limit'] gets the rate-limit toast; any
    other [Error] is reported with its own message. *)
Theorem push_error_toast (f : formState) (x : X) (t : thrown) :
  let args := {| push_repoName := Js.trim (githubRepoName f);
                 push_username := Js.trim (githubUsername f);
                 push_token := Js.trim (githubToken f);
                 push_isPrivate := isPrivateRepo f;
                 push_branch :=
                   if isNewBranch f then Some (Js.trim (newBranchName f)) else None;
                 push_isNewBranch := isNewBranch f |} in
  let mentions (sub : string) :=
    exists e a b, t = ThrowError e /\ message e = a +:+ sub +:+ b in
  (pushToGitHub args x).1 = Throw t ->
  exists msg,
    events (push pushToGitHub f x) =
      [SetIsGitHubPushing true; PushToGitHub args; ConsoleError t; ToastError msg;
       SetIsGitHubPushing false] /\
    ((forall e, t <> ThrowError e) -> msg = "Failed to push to GitHub") /\
    (mentions "Repository does not exist" ->
       msg = "Cannot create a new branch in a non-existent repository. Please create the repository first.") /\
    (mentions "rate limit" -> ~ mentions "Repository does not exist" ->
       msg = "GitHub API rate limit exceeded. Please try again later.") /\
    (forall e, t = ThrowError e -> ~ mentions "rate limit" ->
       ~ mentions "Repository does not exist" -> msg = message e).
Proof.
  intros args mentions Ht.
  destruct (push_rejected f x args t eq_refl Ht) as (msg & Hrun & Hmsg).
  exists msg. rewrite Hrun. split; [reflexivity|].
  assert (Hm : forall sub,
            Js.includes (messageOr t "Failed to push to GitHub") sub = true ->
            (forall e, t <> ThrowError e) \/ mentions sub).
  { intros sub Hin. destruct t as [v|e]; [left; intros e; discriminate|].
    right. apply includes_spec in Hin as (a & b & Hab). exists e, a, b. auto. }
  assert (Hi : forall sub, mentions sub ->
            Js.includes (messageOr t "Failed to push to GitHub") sub = true).
  { intros sub (e & a & b & -> & Hab). apply includes_spec. eauto. }
  split; [|split; [|split]].
  - intros Hno. destruct t as [v|e]; [exact Hmsg|]. exfalso. exact (Hno e eq_refl).
  - intros Hrepo. rewrite (Hi _ Hrepo) in Hmsg. exact Hmsg.
  - intros Hrate Hnot. rewrite (Hi _ Hrate) in Hmsg.
    destruct (Js.includes _ "Repository does not exist") eqn:Hrepo; [|exact Hmsg].
    destruct (Hm _ Hrepo) as [Hno|Hyes]; [|contradiction].
    destruct Hrate as (e & _ & _ & -> & _). exfalso. exact (Hno e eq_refl).
  - intros e -> Hnorate Hnorepo.
    destruct (Js.includes _ "Repository does not exist") eqn:Hrepo.
    { destruct (Hm _ Hrepo) as [Hno|Hyes]; [exfalso; exact (Hno e eq_refl)|contradiction]. }
    destruct (Js.includes _ "rate limit") eqn:Hrate.
    { destruct (Hm _ Hrate) as [Hno|Hyes]; [exfalso; exact (Hno e eq_refl)|contradiction]. }
    exact Hmsg.
Qed.

Lemma push_starts (f : formState) (x : X) :
  exists rest,
    events (push pushToGitHub f x) =
      SetIsGitHubPushing true ::
      PushToGitHub {| push_repoName := Js.trim (githubRepoName f);
                      push_username := Js.trim (githubUsername f);
                      push_token := Js.trim (githubToken f);
                      push_isPrivate := isPrivateRepo f;
                      push_branch :=
                        if isNewBranch f then Some (Js.trim (newBranchName f)) else None;
                      push_isNewBranch := isNewBranch f |} :: rest.
Proof.
  unfold push, tryFinally, tryCatch, bind, await_push, emit, toast_error, events.
  destruct (pushToGitHub _ x) as [[repoUrl|t] x']; cbn [fst snd app].
  - eexists. reflexivity.
  - repeat match goal with |- context [if ?b then _ else _] => destruct b end;
      eexists; reflexivity.
Qed.

(** X28. The store is given trimmed values, while the checks of the handler
    look at the values as typed: whatever [pushToGitHub] is called with, its
    repository name, username, token and branch have no white space at
    either end; so a repository name or username of white space only, which
    the checks take for filled in, reaches the store as the empty string. *)
Theorem push_args_trimmed (f : formState) (x : X) (args : pushArgs) :
  In (PushToGitHub args) (events (handleGitHubPush pushToGitHub f x)) ->
  trimmed (push_repoName args) /\ trimmed (push_username args) /\
  trimmed (push_token args) /\
  (forall branch, push_branch args = Some branch -> trimmed branch) /\
  (blank (githubRepoName f) -> push_repoName args = "") /\
  (blank (githubUsername f) -> push_username args = "").
Proof.
  intros Hin.
  assert (Hargs : In (PushToGitHub args) (events (push pushToGitHub f x))).
  { unfold handleGitHubPush in Hin.
    repeat match type of Hin with
      | context [if ?b then _ else _] => destruct b
      end;
      first [exact Hin | destruct Hin as [Hin|[]]; discriminate Hin]. }
  clear Hin.
  assert (Heq : args = {| push_repoName := Js.trim (githubRepoName f);
                          push_username := Js.trim (githubUsername f);
                          push_token := Js.trim (githubToken f);
                          push_isPrivate := isPrivateRepo f;
                          push_branch :=
                            if isNewBranch f then Some (Js.trim (newBranchName f))
                            else None;
                          push_isNewBranch := isNewBranch f |}).
  { revert Hargs.
    unfold push, tryFinally, tryCatch, bind, await_push, emit, toast_error, events.
    destruct (pushToGitHub _ x) as [[repoUrl|t] x']; cbn [fst snd app].
    - intros [H|[H|[H|[H|[H|[]]]]]]; try discriminate H. injection H as <-. reflexivity.
    - repeat match goal with |- context [if ?b then _ else _] => destruct b end;
        cbn [fst snd app];
        (intros [H|[H|[H|[H|[H|[]]]]]]; try discriminate H; injection H as <-; reflexivity). }
  subst args. cbn [push_repoName push_username push_token push_branch].
  split; [apply trim_trimmed|]. split; [apply trim_trimmed|].
  split; [apply trim_trimmed|]. split; [|split; apply trim_blank].
  intros branch Hb. destruct (isNewBranch f); [|discriminate Hb].
  injection Hb as <-. apply trim_trimmed.
Qed.

End PushMore.

Section HandlersMore.
Import WorkbenchHandlers.
Context {X : Type}.
Variable showDirectoryPicker : X -> outcome string * X.
Variable syncFiles : string -> X -> outcome unit * X.
Variable listBranches : string -> string -> string -> X -> outcome (list string) * X.

(** X29. [fetchBranches] never rejects. With the username, the token or the
    repository name empty it does nothing at all, GitHub is not asked;
    otherwise it asks once and sets the branches to the names it got, or,
    when the request fails, logs the error and sets the branches to the
    empty list. *)
Theorem fetchBranches_ends (githubUsername githubToken githubRepoName : string) (x : X) :
  let run := fetchBranches listBranches githubUsername githubToken githubRepoName x in
  let asked := listBranches githubToken githubUsername githubRepoName x in
  result run = Ok tt /\
  (githubUsername = "" \/ githubToken = "" \/ githubRepoName = "" ->
   events run = [] /\ final run = x) /\
  (githubUsername <> "" -> githubToken <> "" -> githubRepoName <> "" ->
   final run = asked.2 /\
   events run =
     ListBranches githubToken githubUsername githubRepoName ::
     match asked.1 with
     | Ok names => [SetBranches names]
     | Throw t => [ConsoleError "Error fetching branches:" t; SetBranches []]
     end).
Proof.
  cbv zeta. unfold fetchBranches. split; [|split].
  - destruct (_ || _); [reflexivity|].
    unfold tryCatch, bind, await, emit, result.
    destruct (listBranches _ _ _ x) as [[names|t] x']; reflexivity.
  - intros Hempty.
    assert (He : Js.isEmpty githubUsername || Js.isEmpty githubToken
                 || Js.isEmpty githubRepoName = true).
    { destruct Hempty as [ -> | [ -> | -> ] ]; cbn; rewrite ?orb_true_r; reflexivity. }
    rewrite He. split; reflexivity.
  - intros Hu Ht Hr. apply isEmpty_false in Hu, Ht, Hr. rewrite Hu, Ht, Hr. cbn [orb].
    unfold tryCatch, bind, await, emit, final, events.
    destruct (listBranches _ _ _ x) as [[names|t] x']; split; reflexivity.
Qed.

(** X30. [handleSyncFiles] never rejects and always clears the syncing flag
    as its last step. The files are synced only with a directory the picker
    gave: when the picker is dismissed [syncFiles] is not called. Exactly one
    toast is shown, the success toast only when both steps succeeded. *)
Theorem handleSyncFiles_ends (x : X) :
  let run := handleSyncFiles showDirectoryPicker syncFiles x in
  let picked := showDirectoryPicker x in
  result run = Ok tt /\
  match picked.1 with
  | Throw t =>
      final run = picked.2 /\
      events run = [SetIsSyncing true; ShowDirectoryPicker;
                    ConsoleError "Error syncing files:" t;
                    ToastError "Failed to sync files"; SetIsSyncing false]
  | Ok directoryHandle =>
      let synced := syncFiles directoryHandle picked.2 in
      final run = synced.2 /\
      events run =
        SetIsSyncing true :: ShowDirectoryPicker :: SyncFiles directoryHandle ::
        match synced.1 with
        | Ok _ => [ToastSuccess "Files synced successfully"; SetIsSyncing false]
        | Throw t => [ConsoleError "Error syncing files:" t;
                      ToastError "Failed to sync files"; SetIsSyncing false]
        end
  end.
Proof.
  cbv zeta. unfold handleSyncFiles, tryFinally, tryCatch, bind, await, emit,
    result, final, events.
  destruct (showDirectoryPicker x) as [[directoryHandle|t] x1]; cbn [fst snd app];
    [|auto].
  destruct (syncFiles directoryHandle x1) as [[[]|t] x2]; cbn [fst snd app]; auto.
Qed.

End HandlersMore.

(** ** Closed examples for the further properties *)

Section MoreExamples.
Import useGit Concrete ConcreteMore.

Ltac literal :=
  first
    [ discriminate
    | exact allSlash_nil
    | unfold noSlash, allSlash; cbn; repeat constructor; discriminate
    | split; [discriminate|unfold noSlash; cbn; repeat constructor; discriminate] ].

Lemma dirname_basename_join_witness :
  pathUtils.dirname "src/lib/a.ts//" = "src/lib" /\
  pathUtils.basename "src/lib/a.ts//" None = "a.ts".
Proof. apply (dirname_basename_join "src/lib" "a.ts" "//"); literal. Defined.

Lemma dirname_basename_bare_witness :
  (pathUtils.dirname "a.ts" = "." /\ pathUtils.basename "a.ts" None = "a.ts") /\
  (pathUtils.dirname "src/" = "/" /\ pathUtils.basename "src/" None = "src").
Proof.
  split.
  - apply (dirname_basename_bare "a.ts" ""). literal.
  - apply (dirname_basename_bare "src" "/"); literal.
Defined.

Lemma basename_ext_witness :
  pathUtils.basename "src/a.ts" (Some ".ts") = "a" /\
  pathUtils.basename "src/a.ts" (Some ".js") = pathUtils.basename "src/a.ts" None.
Proof.
  split.
  - apply (basename_ext "src/a.ts" "a" ".ts"); [discriminate|reflexivity].
  - apply (basename_ext "src/a.ts" "a" ".js").
    intros Hend. apply endsWith_spec in Hend. discriminate Hend.
Defined.

Lemma relative_slashes_witness :
  pathUtils.relative ("/home/project" +:+ "/") ("/home/project/src" +:+ "//") =
    pathUtils.relative "/home/project" "/home/project/src" /\
  pathUtils.relative "/home/project" ("/home/project" +:+ "//" +:+ "src") =
    pathUtils.relative "/home/project" ("/home/project" +:+ "/" +:+ "src").
Proof.
  apply (relative_slashes "/home/project" "/home/project/src" "/" "//"
           "/home/project" "src"); literal.
Defined.

Lemma relative_under_witness :
  pathUtils.relative "/home/project" ("/home/project" +:+ "/" +:+ "src//a.ts/") =
    "src/a.ts" /\
  pathUtils.relative "/home/project"
    ("/home/project" +:+ "/" +:+ Js.join "/" ["src"; "a.ts"]) = Js.join "/" ["src"; "a.ts"].
Proof.
  destruct (relative_under "/home/project" "src//a.ts/" ["src"; "a.ts"]
              ltac:(discriminate)) as [Hsub Hparts].
  split; [exact Hsub|]. apply Hparts; [discriminate|]. repeat constructor; literal.
Defined.

Lemma container_paths_normal_witness :
  Forall confined (events (gitClone (mounted container) cloneUrl w0)).
Proof. apply (container_paths_normal container). reflexivity. Defined.

Lemma recursive_flags_witness :
  exists o', In (FsMkdir "src" o')
               (events (mkdir container "/home/project/src"
                          (Some {[ "recursive" := VBool false; "mode" := VNum 493 ]}) w0)) /\
             getProp o' "recursive" = VBool true /\
             o' !! "mode" = Some (VNum 493).
Proof.
  destruct (recursive_flags container "/home/project/src"
              (Some {[ "recursive" := VBool false; "mode" := VNum 493 ]}) w0)
    as [(o' & Hin & Hrec & Hother) _].
  exists o'. split; [exact Hin|]. split; [exact Hrec|].
  rewrite (Hother "mode"); [reflexivity|discriminate].
Defined.

Lemma stat_below_workdir_witness :
  result (stat container ("/home/project" +:+ "/" +:+ Js.join "/" (["src"] ++ ["a.ts"])) w1) =
    Ok (mkStats true false false 1 438 5 1000 1000).
Proof.
  exact (stat_below_workdir container ["src"] "a.ts" w1
           ltac:(discriminate) ltac:(repeat constructor; literal) ltac:(literal)).
Defined.

Lemma stat_workdir_witness :
  result (stat container ("/home/project" +:+ "/") w1) =
    Throw (enoent ("/home/project" +:+ "/")).
Proof.
  apply (stat_workdir container "/" w1); [literal|].
  intros l Hl. injection Hl as <-. repeat constructor. discriminate.
Defined.

Lemma gitClone_on_request_witness :
  after (Called (CallOnAuthSuccess cloneUrl
                   (mkAuth (Some "Enter username") (Some "Enter password") false)))
        (SaveGitAuth cloneUrl
           (mkAuth (Some "Enter username") (Some "Enter password") false))
        (events (gitClone (svc := authenticating) (mounted container) cloneUrl w0)) /\
  exists u,
    after (Called (CallOnAuth u)) (Prompt "Enter password")
          (events (gitClone (svc := authenticating) (mounted container) cloneUrl w0)).
Proof.
  destruct (gitClone_on_request (svc := authenticating) (mounted container) container
              cloneUrl w0 eq_refl) as [Hsave Hdialog].
  split.
  - apply Hsave. vm_compute. auto 10.
  - apply (Hdialog "Enter password"); [right; reflexivity|]. vm_compute. auto 10.
Defined.

Lemma gitClone_failure_toast_witness :
  (exists before,
     events (gitClone (svc := failing) (mounted container) cloneUrl w0) =
       before ++ [ToastError "HTTP Error: 404 Not Found"]) /\
  result (git_clone (svc := failing) (getFs container)
            (mkCloneArgs "/home/project" cloneUrl 1 true "https://cors.isomorphic-git.org")
            (mkWorld (outside w0) ∅)) =
    Throw (ThrowError (newError "HTTP Error: 404 Not Found")).
Proof.
  destruct (gitClone_failure_toast (svc := failing) (mounted container) container
              (getFs container) cloneUrl w0
              (ThrowError (newError "HTTP Error: 404 Not Found"))
              eq_refl eq_refl eq_refl) as [Hthrown _].
  destruct (Hthrown eq_refl) as (Htoast & _ & Hsame).
  split; [exact Htoast|]. apply Hsame. reflexivity.
Defined.

Lemma gitClone_record_fresh_witness :
  fileData (final (gitClone (mounted container) cloneUrl stale)) !! "old.txt" = None /\
  fileData (final (gitClone (svc := protoRepo) (mounted container) cloneUrl stale))
    !! "README.md" = Some (mkEntry (VStr "# r") VUndefined) /\
  fileData (final (gitClone (svc := protoRepo) (mounted container) cloneUrl stale))
    !! "__proto__" = None.
Proof.
  destruct (gitClone_record_fresh (mounted container) container cloneUrl stale
              eq_refl eq_refl eq_refl) as (Hold & _ & _).
  destruct (gitClone_record_fresh (svc := protoRepo) (mounted container) container
              cloneUrl stale eq_refl eq_refl eq_refl) as (Hreadme & Hproto & _).
  split; [|split; [|exact Hproto]].
  - rewrite Hold by discriminate. vm_compute. reflexivity.
  - rewrite Hreadme by discriminate. vm_compute. reflexivity.
Defined.

Lemma gitClone_once_witness :
  exists args rest,
    events (gitClone (mounted container) cloneUrl w0) = GitClone args :: rest /\
    forall args', ~ In (GitClone args') rest.
Proof.
  apply (gitClone_once (mounted container) container cloneUrl w0); reflexivity.
Defined.

Lemma onAuthFailure_host_witness :
  events (onAuthFailure ("https:" +:+ "//" +:+ "github.com" +:+ "/" +:+ "a/b.git")
            cancelled w0) =
    [ToastError ("Error Authenticating with " +:+ "github.com")] /\
  events (onAuthFailure (X := X) "github.com" cancelled w0) =
    [ToastError "Error Authenticating with undefined"].
Proof.
  destruct (onAuthFailure_host (X := X) "https:" "github.com" "a/b.git" "github.com" "x"
              cancelled w0 ltac:(literal) ltac:(literal) ltac:(literal) ltac:(literal))
    as (H1 & _ & _ & H4).
  split; [exact H1|exact H4].
Defined.

Lemma relative_normal_witness :
  pathUtils.relative "/home/project" "/home/project" <> "" /\
  Js.startsWith (pathUtils.relative "/home/project/src" "/home") "/" = false.
Proof.
  destruct (relative_normal "/home/project" "/home/project") as [Hne _].
  destruct (relative_normal "/home/project/src" "/home") as (_ & _ & Hstart).
  split; [exact Hne|exact Hstart].
Defined.

Import EditorStore EditorStoreMethods.

Lemma setDocuments_original_witness :
  originalContent (setDocuments files' (setDocuments files store)) !! "src/a.ts" =
    Some "let a = 0".
Proof.
  apply (setDocuments_original files files' store "src/a.ts"). vm_compute. reflexivity.
Defined.

Lemma documents_keyed_witness :
  (keyed (documents (base (updateScrollPosition "src/a.ts" (mkScroll 10 0) store))) /\
   keyed (documents (updateFile addVersion isExistingFile "src/a.ts" "let a = 2"
                       (base store))) /\
   keyed (documents (base (resetFile addVersion isExistingFile "src/a.ts" store)))) /\
  ~ keyed (documents (updateFile addVersion isExistingFile "constructor" "x" (base store))).
Proof.
  assert (Hkeyed : keyed (documents (base store))).
  { intros p d Hd. unfold store, Concrete.editor in Hd. cbn [base documents] in Hd.
    apply lookup_singleton_Some in Hd as [<- <-]. reflexivity. }
  split.
  - destruct (documents_keyed addVersion isExistingFile files store "src/a.ts"
                "let a = 2" (mkScroll 10 0)) as (_ & Hkept & _).
    apply Hkept; [exact Hkeyed|]. left. eexists. reflexivity.
  - destruct (documents_keyed addVersion isExistingFile files store "constructor"
                "x" (mkScroll 10 0)) as (_ & _ & Hbroken).
    apply Hbroken; [reflexivity|]. apply (bool_decide_unpack _). reflexivity.
Defined.

Lemma scroll_survives_setDocuments_witness :
  documents (base (setDocuments files (updateScrollPosition "src/a.ts" (mkScroll 10 0) store)))
    !! "src/a.ts" =
    Some (mkDocument "let a = 0" "src/a.ts" (Some (mkScroll 10 0)) false).
Proof.
  apply (scroll_survives_setDocuments files store "src/a.ts" "let a = 0" false
           (mkScroll 10 0)).
  - eexists. vm_compute. reflexivity.
  - vm_compute. reflexivity.
Defined.

Lemma resetFile_nothing_witness :
  resetFile addVersion isExistingFile "src/a.ts" store = store.
Proof.
  apply (resetFile_nothing addVersion isExistingFile "src/a.ts" store).
  left. reflexivity.
Defined.

Lemma resetFile_restores_witness :
  documents (base (resetFile addVersion isExistingFile "src/a.ts"
                     (updateFile' addVersion isExistingFile "src/a.ts" "let a = 2"
                        (setDocuments files store)))) !! "src/a.ts" =
    Some (mkDocument "let a = 0" "src/a.ts" None false).
Proof.
  destruct (resetFile_restores addVersion isExistingFile "src/a.ts" "let a = 0"
              (updateFile' addVersion isExistingFile "src/a.ts" "let a = 2"
                 (setDocuments files store)))
    as [Hdoc _]; [vm_compute; reflexivity|discriminate|].
  apply (Hdoc (mkDocument "let a = 2" "src/a.ts" None false)). vm_compute. reflexivity.
Defined.

Lemma updateFile_changed_witness :
  versionHistoryStore (updateFile addVersion isExistingFile "src/a.ts" "let a = 2"
                         Concrete.editor) =
    [("src/a.ts", "let a = 2", "Modified in editor")].
Proof.
  destruct (updateFile_changed addVersion isExistingFile "src/a.ts" "let a = 2" Concrete.editor
              (mkDocument "let a = 1" "src/a.ts" None false))
    as (_ & _ & Hhistory & _); [vm_compute; reflexivity|discriminate|].
  exact Hhistory.
Defined.

Lemma reset_undoes_update_witness :
  documents (base (resetFile addVersion isExistingFile "src/a.ts"
                     (updateFile' addVersion isExistingFile "src/a.ts" "let a = 2"
                        (setDocuments files store)))) !! "src/a.ts" =
    documents (base (setDocuments files store)) !! "src/a.ts".
Proof.
  apply (reset_undoes_update addVersion isExistingFile files store "src/a.ts"
           "let a = 0" "let a = 2" false);
    [reflexivity|vm_compute; reflexivity|discriminate].
Defined.

Import Workbench.

Lemma push_error_toast_witness :
  In (ToastError "GitHub API rate limit exceeded. Please try again later.")
     (events (push limitedStore branchForm tt)).
Proof.
  destruct (push_error_toast limitedStore branchForm tt
              (ThrowError (newError "API rate limit exceeded")) eq_refl)
    as (msg & Hevents & _ & _ & Hrate & _).
  rewrite Hevents. do 3 right. left. f_equal. apply Hrate.
  - exists (newError "API rate limit exceeded"), "API ", " exceeded".
    split; reflexivity.
  - intros (e & a & b & He & Hm). injection He as <-.
    assert (Hin : Js.includes "API rate limit exceeded" "Repository does not exist" = true)
      by (apply includes_spec; exists a, b; exact Hm).
    discriminate Hin.
Defined.

Lemma push_args_trimmed_witness :
  In (PushToGitHub (mkPush "" "alice" "ghp_0123456789" false None false))
     (events (handleGitHubPush acceptingStore blankForm tt)) /\
  trimmed "alice" /\
  push_repoName (mkPush "" "alice" "ghp_0123456789" false None false) = "".
Proof.
  assert (Hin : In (PushToGitHub (mkPush "" "alice" "ghp_0123456789" false None false))
                   (events (handleGitHubPush acceptingStore blankForm tt)))
    by (vm_compute; auto).
  destruct (push_args_trimmed acceptingStore blankForm tt _ Hin)
    as (_ & Huser & _ & _ & Hrepo & _).
  split; [exact Hin|]. split; [exact Huser|]. apply Hrepo.
  exists [Js.utf8 0x3000; " "]. split; [|reflexivity].
  repeat constructor; [exists 0x3000%N|exists 0x20%N];
    (split; [repeat first [left; reflexivity|right]|reflexivity]).
Defined.

Import WorkbenchHandlers.

Lemma fetchBranches_ends_witness :
  events (fetchBranches branchesOf "" "ghp_0123456789" "project" tt) = [] /\
  events (fetchBranches branchesOf "alice" "ghp_0123456789" "project" tt) =
    [ListBranches "ghp_0123456789" "alice" "project"; SetBranches ["main"; "dev"]].
Proof.
  split.
  - destruct (fetchBranches_ends branchesOf "" "ghp_0123456789" "project" tt)
      as (_ & Hnone & _).
    apply Hnone. left. reflexivity.
  - destruct (fetchBranches_ends branchesOf "alice" "ghp_0123456789" "project" tt)
      as (_ & _ & Hasked).
    apply Hasked; discriminate.
Defined.

End MoreExamples.
